(** * Daily Word Learner bot: persistence, user registry and corpus manager

    A shallow embedding of [bot.py]: the JSON helpers ([load_json],
    [save_json]), the data accessors ([get_users], [save_users],
    [get_words], [save_words]), the user registry ([ensure_user]) and the
    vocabulary corpus manager ([fetch_word_info], [ensure_words]), together
    with the job registrations of [main].

    Python values that travel through [json.load] / [json.dump] are modelled
    by the inductive type [json]; a Python [dict] is an insertion-ordered
    association list.  The file system, the fault behaviour of writes, the
    log and the HTTP traffic live in an explicit [world] that every
    operation threads through a state-and-exception monad. *)

From stdpp Require Import base option list strings pretty gmap.
From Stdlib Require Import ZArith Lia.

Local Open Scope string_scope.
Local Open Scope Z_scope.
Local Open Scope list_scope.
Local Set Warnings "-register-all".

(** ** JSON values and the Python operations used on them *)

Inductive json : Type :=
| JNull
| JBool (b : bool)
| JInt (z : Z)
| JFloat (bits : Z)      (* an IEEE-754 double, kept as its bit pattern *)
| JStr (s : string)
| JList (l : list json)
| JObj (kvs : list (string * json)).

(** Python exceptions the program can meet.  All of them derive from
    [Exception], so every [except Exception] clause catches each of them. *)
Inductive exn : Type :=
| FileNotFoundError | PermissionError | OSError | JSONDecodeError
| KeyError | IndexError | TypeError | AttributeError
| ClientError | TimeoutError | ContentTypeError | TranslateError
| NameError.

Inductive result (A : Type) : Type :=
| Ok (a : A)
| Raise (e : exn).
Arguments Ok {A} a.
Arguments Raise {A} e.

Module Py.

(** [k in d] *)
Definition dict_contains (k : string) (d : list (string * json)) : bool :=
  existsb (fun kv => String.eqb (fst kv) k) d.

(** [d.get(k)]: the value bound to [k], if any. *)
Fixpoint dict_lookup (k : string) (d : list (string * json)) : option json :=
  match d with
  | [] => None
  | (k', v) :: d' => if String.eqb k' k then Some v else dict_lookup k d'
  end.

(** [d[k] = v]: overwrite in place when the key exists, append otherwise
    (dicts keep insertion order). *)
Fixpoint dict_set (k : string) (v : json) (d : list (string * json))
  : list (string * json) :=
  match d with
  | [] => [(k, v)]
  | (k', v') :: d' =>
      if String.eqb k' k then (k', v) :: d' else (k', v') :: dict_set k v d'
  end.

(** [v[i]] for an integer subscript. *)
Definition getitem_int (v : json) (i : Z) : result json :=
  match v with
  | JList l =>
      let n := Z.of_nat (length l) in
      let j := if i <? 0 then i + n else i in
      if (0 <=? j) && (j <? n)
      then match l !! Z.to_nat j with Some x => Ok x | None => Raise IndexError end
      else Raise IndexError
  | JStr s =>
      let n := Z.of_nat (String.length s) in
      let j := if i <? 0 then i + n else i in
      if (0 <=? j) && (j <? n)
      then match String.get (Z.to_nat j) s with
           | Some c => Ok (JStr (String c EmptyString))
           | None => Raise IndexError
           end
      else Raise IndexError
  | JObj _ => Raise KeyError
  | _ => Raise TypeError
  end.

(** [v[k]] for a string subscript. *)
Definition getitem_str (v : json) (k : string) : result json :=
  match v with
  | JObj d => match dict_lookup k d with Some x => Ok x | None => Raise KeyError end
  | _ => Raise TypeError
  end.

(** [v.get(k, dflt)]: only dicts have the method. *)
Definition get_default (v : json) (k : string) (dflt : json) : result json :=
  match v with
  | JObj d => Ok (default dflt (dict_lookup k d))
  | _ => Raise AttributeError
  end.

(** [v == s] where [s] is a [str]: true exactly for the same string. *)
Definition eq_str (v : json) (s : string) : bool :=
  match v with
  | JStr s' => String.eqb s' s
  | _ => false
  end.

(** [l * n] on lists; a non-positive [n] gives the empty list. *)
Definition list_mul {A} (l : list A) (n : Z) : list A :=
  mjoin (replicate (Z.to_nat n) l).

(** [str(n)] for an [int]. *)
Definition str (n : Z) : string := pretty n.

(** [s or ""] for an optional string. *)
Definition or_empty (s : option string) : string :=
  match s with
  | Some s' => if String.eqb s' "" then "" else s'
  | None => ""
  end.

End Py.

(** ** The world: files, write faults and the observable trace *)

(** What a path on disk holds: text that [json.load] parses to [v], or
    something whose opening or parsing raises [e]. An absent file is an
    absent key of the map. *)
Inductive file : Type :=
| Holds (v : json)
| Broken (e : exn).

(** How the next [open(path, "w")] + [json.dump] goes: it succeeds; [open]
    raises and the file is left as it was; or the dump raises after [open]
    has truncated the file. Of a dict or a list, which is all the program
    saves, whatever part of the text got written does not parse, since only
    the last byte closes it. (Of a bare number a written prefix could still
    parse; of such dumps the model keeps the one that wrote nothing.) *)
Inductive write_outcome : Type :=
| WriteOk
| OpenFails (e : exn)
| DumpFails (e : exn).

Inductive event : Type :=
| LogLoadFailed (path : string) (e : exn)
| LogSaveFailed (path : string) (e : exn)
| LogNeedMore (current : nat)
| LogAdded (n : nat)
| LogSkipping (w : string) (e : exn)
| LogFetchError (w : string) (e : exn)
| FileWrite (path : string) (data : json)   (* [open(path, "w")] to dump [data] *)
| HttpGet (url : string).                  (* [session.get(url, timeout=10)] *)

(** [files] are the JSON files under the names the program uses for them,
    [users.json] and [words.json] in the working directory; two names are
    taken to be two files. The log file [bot.log] is not among them: what
    the logger writes are the [Log...] events of the trace. *)
Record world : Type := World {
  files : gmap string file;
  faults : list write_outcome;   (* outcomes of the writes still to come *)
  trace : list event             (* oldest first *)
}.

(** State and exceptions. *)
Definition M (A : Type) : Type := world -> result A * world.

Definition ret {A} (a : A) : M A := fun w => (Ok a, w).
Definition raise {A} (e : exn) : M A := fun w => (Raise e, w).
Definition bind {A B} (m : M A) (k : A -> M B) : M B :=
  fun w => match m w with
           | (Ok a, w') => k a w'
           | (Raise e, w') => (Raise e, w')
           end.
(** [try: body / except Exception as e: handler e] *)
Definition try_except {A} (body : M A) (handler : exn -> M A) : M A :=
  fun w => match body w with
           | (Ok a, w') => (Ok a, w')
           | (Raise e, w') => handler e w'
           end.
Definition lift {A} (r : result A) : M A := fun w => (r, w).
Definition emit (ev : event) : M unit :=
  fun w => (Ok tt, World (files w) (faults w) (trace w ++ [ev])).

Declare Scope py_scope.
Delimit Scope py_scope with py.
Notation "x <~ c1 ;; c2" := (bind c1 (fun x => c2))
  (at level 100, c1 at next level, right associativity) : py_scope.
Notation "c1 ;;; c2" := (bind c1 (fun _ => c2))
  (at level 100, right associativity) : py_scope.
Local Open Scope py_scope.

(** The saves attempted and the requests sent, read off a trace. *)
Definition writes_of (t : list event) : list (string * json) :=
  omap (fun ev => match ev with FileWrite p d => Some (p, d) | _ => None end) t.
Definition gets_of (t : list event) : list string :=
  omap (fun ev => match ev with HttpGet u => Some u | _ => None end) t.

(** ** CONFIG *)

Definition USERS_FILE : string := "users.json".
Definition WORDS_FILE : string := "words.json".

(** ** JSON HELPERS *)

(** [os.path.exists(path)] *)
Definition path_exists (path : string) : M bool :=
  fun w => (Ok (bool_decide (is_Some (files w !! path))), w).

(** [with open(path, "r") as f: json.load(f)] *)
Definition read_json (path : string) : M json :=
  fun w => match files w !! path with
           | Some (Holds v) => (Ok v, w)
           | Some (Broken e) => (Raise e, w)
           | None => (Raise FileNotFoundError, w)
           end.

(** [with open(path, "w") as f: json.dump(data, f, ...)] *)
Definition write_json (path : string) (data : json) : M unit :=
  fun w =>
    let t := trace w ++ [FileWrite path data] in
    match faults w with
    | [] => (Ok tt, World (<[path := Holds data]> (files w)) [] t)
    | WriteOk :: fs => (Ok tt, World (<[path := Holds data]> (files w)) fs t)
    | OpenFails e :: fs => (Raise e, World (files w) fs t)
    | DumpFails e :: fs => (Raise e, World (<[path := Broken JSONDecodeError]> (files w)) fs t)
    end.

Definition empty_default (path : string) : json :=
  if String.eqb path USERS_FILE then JObj [] else JList [].

Definition load_json (path : string) : M json :=
  try_except
    (ex <~ path_exists path ;;
     if negb ex then ret (empty_default path)
     else read_json path)
    (fun e => emit (LogLoadFailed path e) ;;; ret (empty_default path)).

Definition save_json (path : string) (data : json) : M unit :=
  try_except
    (write_json path data)
    (fun e => emit (LogSaveFailed path e)).

(** ** DATA ACCESS *)

Definition get_users : M (list (string * json)) :=
  data <~ load_json USERS_FILE ;;
  match data with
  | JObj d => ret d
  | _ => ret []
  end.

Definition save_users (users : list (string * json)) : M unit :=
  save_json USERS_FILE (JObj users).

Definition get_words : M (list json) :=
  data <~ load_json WORDS_FILE ;;
  match data with
  | JList l => ret l
  | _ => ret []
  end.

Definition save_words (words : list json) : M unit :=
  save_json WORDS_FILE (JList words).

Definition new_profile (username : option string) : json :=
  JObj [ ("username", JStr (Py.or_empty username));
         ("level", JStr "Beginner");
         ("words_per_day", JInt 5);
         ("time", JStr "09:00");
         ("is_premium", JBool false);
         ("learned_words", JList []);
         ("translations_today", JInt 0);
         ("target_lang", JStr "ru");
         ("pending_premium", JBool false) ].

Definition ensure_user (user_id : Z) (username : option string) : M json :=
  users <~ get_users ;;
  let uid := Py.str user_id in
  if negb (Py.dict_contains uid users) then
    let users' := Py.dict_set uid (new_profile username) users in
    save_users users' ;;;
    lift (Py.getitem_str (JObj users') uid)
  else
    lift (Py.getitem_str (JObj users) uid).

(** ** WORDS *)

Definition SAMPLE_WORDS_POOL : list string :=
  [ "apple"; "book"; "computer"; "school"; "water"; "friend"; "language";
    "beautiful"; "music"; "travel";
    "work"; "future"; "happiness"; "family"; "dream"; "power"; "light";
    "energy"; "nature"; "health";
    "success"; "challenge"; "brave"; "kind"; "learn"; "practice"; "study";
    "create"; "build"; "improve" ].

(** What [session.get(url, timeout=10)] does: it raises (connection error,
    timeout), or it yields a response with a status and a body on which
    [resp.json()] returns a value or raises. *)
Inductive http_outcome : Type :=
| GetRaises (e : exn)
| Response (status : Z) (body : result json).

(** The collaborators outside the program. [http_get n url] answers the
    request sent after [n] earlier ones; [translate n word dest] is
    [translator.translate(word, dest=dest).text] at that moment; [shuffle]
    is the permutation [random.shuffle] applies. *)
Record env : Type := Env {
  shuffle : list string -> list string;
  http_get : nat -> string -> http_outcome;
  translate : nat -> string -> string -> result string
}.

Definition rbind {A B} (r : result A) (k : A -> result B) : result B :=
  match r with
  | Ok a => k a
  | Raise e => Raise e
  end.

Definition entry_url (word : string) : string :=
  "https://api.dictionaryapi.dev/api/v2/entries/en/" +:+ word.

Definition session_get (E : env) (url : string) : M (Z * result json) :=
  fun w =>
    let w' := World (files w) (faults w) (trace w ++ [HttpGet url]) in
    match http_get E (length (gets_of (trace w))) url with
    | GetRaises e => (Raise e, w')
    | Response status body => (Ok (status, body), w')
    end.

Definition translator_translate (E : env) (word dest : string) : M string :=
  fun w => (translate E (length (gets_of (trace w))) word dest, w).

(** [data[0]["meanings"][0]["definitions"][0].get("definition", "")] *)
Definition lookup_definition (data : json) : result json :=
  rbind (Py.getitem_int data 0) (fun d0 =>
  rbind (Py.getitem_str d0 "meanings") (fun ms =>
  rbind (Py.getitem_int ms 0) (fun m0 =>
  rbind (Py.getitem_str m0 "definitions") (fun ds =>
  rbind (Py.getitem_int ds 0) (fun ds0 =>
  Py.get_default ds0 "definition" (JStr "")))))).

Definition make_item (word translated : string) (definition : json) : json :=
  JObj [ ("word", JStr word);
         ("translation", JStr translated);
         ("definition", definition);
         ("level", JStr "Beginner") ].

(** The part of both enrichment paths that runs once the status is 200. *)
Definition enrich (E : env) (word dest : string) (body : result json) : M json :=
  data <~ lift body ;;
  definition <~ try_except (lift (lookup_definition data))
                           (fun _ => ret (JStr "")) ;;
  translated <~ try_except (translator_translate E word dest)
                           (fun _ => ret "") ;;
  ret (make_item word translated definition).

Definition fetch_word_info (E : env) (word target_lang : string) : M (option json) :=
  try_except
    (resp <~ session_get E (entry_url word) ;;
     if fst resp =? 200 then
       item <~ enrich E word target_lang (snd resp) ;;
       ret (Some item)
     else ret None)
    (fun e => emit (LogFetchError word e) ;;; ret None).

(** [any(item["word"] == w for item in items)]: stops at the first match,
    raises at the first item before it that has no ["word"]. *)
Fixpoint any_word_eq (items : list json) (w : string) : result bool :=
  match items with
  | [] => Ok false
  | item :: rest =>
      rbind (Py.getitem_str item "word") (fun k =>
      if Py.eq_str k w then Ok true else any_word_eq rest w)
  end.

(** The [try: ... except Exception] statement in the body of the loop:
    one request for [w]; the result is [new_added] afterwards. *)
Definition attempt (E : env) (w : string) (new_added : list json) : M (list json) :=
  try_except
    (resp <~ session_get E (entry_url w) ;;
     if fst resp =? 200 then
       item <~ enrich E w "ru" (snd resp) ;;
       ret (new_added ++ [item])
     else ret new_added)
    (fun e => emit (LogSkipping w e) ;;; ret new_added).

(** The [for w in candidates] loop of [ensure_words]; the result is
    [new_added] when the loop ends. *)
Fixpoint for_candidates (E : env) (needed : Z) (words : list json)
    (candidates : list string) (new_added : list json) : M (list json) :=
  match candidates with
  | [] => ret new_added
  | w :: rest =>
      if Z.of_nat (length new_added) >=? needed then ret new_added
      else
        dup <~ lift (rbind (any_word_eq words w) (fun b =>
                     if b then Ok true else any_word_eq new_added w)) ;;
        if (dup : bool) then for_candidates E needed words rest new_added
        else
          new_added' <~ attempt E w new_added ;;
          for_candidates E needed words rest new_added'
  end.

Definition needed_for (min_total : Z) (words : list json) : Z :=
  Z.max (min_total - Z.of_nat (length words)) 50.

Definition candidates_for (E : env) (needed : Z) : list string :=
  shuffle E (Py.list_mul SAMPLE_WORDS_POOL
               (needed / Z.of_nat (length SAMPLE_WORDS_POOL) + 2)).

Definition ensure_words (E : env) (min_total : Z) : M unit :=
  words <~ get_words ;;
  if Z.of_nat (length words) >=? min_total then ret tt
  else
    emit (LogNeedMore (length words)) ;;;
    let needed := needed_for min_total words in
    let candidates := candidates_for E needed in
    new_added <~ for_candidates E needed words candidates [] ;;
    match new_added with
    | [] => ret tt
    | _ :: _ =>
        let words' := words ++ new_added in
        save_words words' ;;;
        emit (LogAdded (length new_added))
    end.

(** ** Closed forms and views used in the statements *)

(** What a load returns and the world it leaves, in closed form. *)
Definition load_value (path : string) (w : world) : json :=
  match files w !! path with
  | Some (Holds v) => v
  | _ => empty_default path
  end.

Definition load_world (path : string) (w : world) : world :=
  match files w !! path with
  | Some (Broken e) => World (files w) (faults w) (trace w ++ [LogLoadFailed path e])
  | _ => w
  end.

Definition next_outcome (w : world) : write_outcome :=
  match faults w with
  | [] => WriteOk
  | o :: _ => o
  end.

Definition save_world (path : string) (data : json) (w : world) : world :=
  let t := trace w ++ [FileWrite path data] in
  match next_outcome w with
  | WriteOk => World (<[path := Holds data]> (files w)) (tail (faults w)) t
  | OpenFails e =>
      World (files w) (tail (faults w)) (t ++ [LogSaveFailed path e])
  | DumpFails e =>
      World (<[path := Broken JSONDecodeError]> (files w)) (tail (faults w))
            (t ++ [LogSaveFailed path e])
  end.

Definition stored_users (w : world) : list (string * json) :=
  match load_value USERS_FILE w with
  | JObj d => d
  | _ => []
  end.

Definition stored_words (w : world) : list json :=
  match load_value WORDS_FILE w with
  | JList l => l
  | _ => []
  end.


(** ** Statements and inputs used by the theorems *)

(** Two calls of [ensure_user] in a row for one identifier: the second
    returns what the first returned, leaves the files as they are and
    attempts no save. *)
Definition second_call_is_noop
    (user_id : Z) (hint1 hint2 : option string) (w : world) : Prop :=
  let '(r1, w1) := ensure_user user_id hint1 w in
  let '(r2, w2) := ensure_user user_id hint2 w1 in
  r2 = r1 /\ files w2 = files w1 /\ writes_of (trace w2) = writes_of (trace w1).

Definition empty_world : world := World ∅ [] [].

(** No files yet, and the first write is refused (a read-only directory
    that becomes writable afterwards). *)
Definition first_write_refused : world := World ∅ [OpenFails PermissionError] [].

(** The key under which an item is deduplicated: [item["word"]]. *)
Definition word_key (item : json) : option json :=
  match item with
  | JObj d => Py.dict_lookup "word" d
  | _ => None
  end.

(** The keys of a corpus, in order; an item without ["word"] has none. *)
Definition word_keys (items : list json) : list json := omap word_key items.

(** Whether some item of [items] is keyed by the string [c]. *)
Definition has_word (items : list json) (c : string) : bool :=
  existsb (fun item => match word_key item with
                       | Some k => Py.eq_str k c
                       | None => false
                       end) items.

(** [item] is a stored entry for the candidate [c]. *)
Definition item_of (item : json) (c : string) : Prop :=
  exists translated definition, item = make_item c translated definition.

(** The request for [c] sent after [n] earlier ones succeeds overall: it
    is answered with status 200 and a body that parses. *)
Definition enrichment_ok (E : env) (n : nat) (c : string) : bool :=
  match http_get E n (entry_url c) with
  | Response status (Ok _) => status =? 200
  | _ => false
  end.

Definition response_data (E : env) (n : nat) (c : string) : json :=
  match http_get E n (entry_url c) with
  | Response _ (Ok data) => data
  | _ => JNull
  end.

(** The fields stored for a word: what the lookup gives, or the empty
    string when it raises. *)
Definition definition_of (data : json) : json :=
  match lookup_definition data with
  | Ok v => v
  | Raise _ => JStr ""
  end.

Definition translation_of (E : env) (n : nat) (word dest : string) : string :=
  match translate E n word dest with
  | Ok s => s
  | Raise _ => ""
  end.

(** What the loop guarantees whenever it ends normally: it only appends
    to [new_added]; the appended items are entries for pairwise distinct
    candidates, none of which was keyed in [words] or in [new_added]
    before; and it stops appending at [needed] entries. It never writes. *)
Definition loop_post (needed : Z) (words : list json) (cands : list string)
    (acc : list json) (r : result (list json)) : Prop :=
  match r with
  | Raise _ => True
  | Ok acc' =>
      exists added ws,
        acc' = acc ++ added /\ Forall2 item_of added ws /\ NoDup ws /\
        (forall c, c ∈ ws ->
           c ∈ cands /\ has_word words c = false /\ has_word acc c = false) /\
        Z.of_nat (length acc') <= Z.max (Z.of_nat (length acc)) needed
  end.

(** The world in which [ensure_words] enters its loop, and the one it
    leaves after saving [words']. *)
Definition loop_entry (w : world) : world :=
  let w1 := load_world WORDS_FILE w in
  World (files w1) (faults w1) (trace w1 ++ [LogNeedMore (length (stored_words w))]).

Definition saved (words' : list json) (n : nat) (w : world) : world :=
  let s := save_world WORDS_FILE (JList words') w in
  World (files s) (faults s) (trace s ++ [LogAdded n]).

(** Collaborators for the worked examples: an identity shuffle, a
    dictionary service that answers 200 with an empty list (so the
    definition lookup fails) and a translator that raises. *)
Definition bare_env : env :=
  Env (fun l => l)
      (fun _ _ => Response 200 (Ok (JList [])))
      (fun _ _ _ => Raise TranslateError).

(** Several calls of [ensure_words] in a row, each with its own
    collaborators and minimum. *)
Definition run_ensure_words (calls : list (env * Z)) (w : world) : world :=
  foldl (fun w call => snd (ensure_words (fst call) (snd call) w)) w calls.

(** The store after one replenishment from nothing with [bare_env]. *)
Definition seeded_world : world := snd (ensure_words bare_env 200 empty_world).

(** A corpus made of seed words only: every item carries a word key that
    is a word of the pool, and no key occurs twice. *)
Definition seed_corpus (words : list json) : Prop :=
  NoDup (word_keys words) /\
  Forall (fun item => exists c, c ∈ SAMPLE_WORDS_POOL /\
                                word_key item = Some (JStr c)) words.

(** The worlds the program gets to from a store with no files, whatever
    the writes, the dictionary service, the translator and the shuffles do. *)
Inductive reachable : world -> Prop :=
| reach_init fl : reachable (World ∅ fl [])
| reach_ensure_words E min_total w :
    (forall l, shuffle E l ≡ₚ l) ->
    reachable w -> reachable (snd (ensure_words E min_total w))
| reach_ensure_user user_id username w :
    reachable w -> reachable (snd (ensure_user user_id username w))
| reach_fetch_word_info E word target_lang w :
    reachable w -> reachable (snd (fetch_word_info E word target_lang w)).

(** The dictionary service answers a given request alike at every attempt. *)
Definition steady (E : env) : Prop :=
  forall n n' url, http_get E n url = http_get E n' url.

(** Whether the request for [url] sent after [n] earlier ones succeeds. *)
Definition request_ok (E : env) (n : nat) (url : string) : bool :=
  match http_get E n url with
  | Response status (Ok _) => status =? 200
  | _ => false
  end.

(** The requests one call of [ensure_words] sends, in order, and those
    among them that fail. *)
Definition call_requests (E : env) (min_total : Z) (w : world) : list string :=
  drop (length (gets_of (trace w)))
       (gets_of (trace (snd (ensure_words E min_total w)))).

Definition failed_requests (E : env) (min_total : Z) (w : world) : list string :=
  let n0 := length (gets_of (trace w)) in
  omap (fun p => if request_ok E (n0 + fst p) (snd p) then None else Some (snd p))
       (imap (fun i url => (i, url)) (call_requests E min_total w)).

(** Claim C3 as stated: a request that fails is not sent again in the same
    call, and the corpus grows by the words requested less the failed ones. *)
Definition failures_skipped_for_good (E : env) (min_total : Z) (w : world) : Prop :=
  let sent := call_requests E min_total w in
  let failed := failed_requests E min_total w in
  (forall url, url ∈ failed -> length (filter (fun u => u = url) sent) = 1%nat) /\
  length (stored_words (snd (ensure_words E min_total w))) =
  (length (stored_words w) + length (remove_dups sent)
   - length (remove_dups failed))%nat.

(** Twenty seed words stored, the first ten of the pool missing. *)
Definition twenty_stored : world :=
  World {[ WORDS_FILE :=
             Holds (JList ((fun c => make_item c "" (JStr "")) <$>
                           drop 10 SAMPLE_WORDS_POOL)) ]} [] [].

(** The first two requests time out, all later ones succeed. *)
Definition flaky_env : env :=
  Env (fun l => l)
      (fun n _ => if (n <? 2)%nat then GetRaises TimeoutError
                  else Response 200 (Ok (JList [])))
      (fun _ _ _ => Ok "").

(** Requests for "apple" and "book" time out at every attempt. *)
Definition two_fail_env : env :=
  Env reverse
      (fun _ url => if bool_decide (url = entry_url "apple") ||
                       bool_decide (url = entry_url "book")
                    then GetRaises TimeoutError
                    else Response 200 (Ok (JList [])))
      (fun _ _ _ => Ok "").

(** ** START: the jobs registered by [main], and the quota counter *)

Module Scheduler.

Inductive callback : Type :=
| check_and_send
| reset_translations_job.

(** [run_repeating(cb, interval=i, first=f)] and [run_daily(cb, time=t)],
    times in seconds. *)
Inductive trigger : Type :=
| Repeating (interval first : Z)
| Daily (second_of_day : Z).

(** [datetime.time(hour=h, minute=m, second=s)] as a second of the day. *)
Definition time_of_day (hour minute second : Z) : Z :=
  3600 * hour + 60 * minute + second.

Definition midnight : Z := time_of_day 0 0 0.

(** The jobs that the [# Jobs] lines of [main] (lines 212-214) register
    once [main] gets there; see [main] below for whether it does. *)
Definition job_queue : list (callback * trigger) :=
  [ (check_and_send, Repeating 60 10);
    (reset_translations_job, Daily midnight) ].

Definition callback_eqb (a b : callback) : bool :=
  match a, b with
  | check_and_send, check_and_send => true
  | reset_translations_job, reset_translations_job => true
  | _, _ => false
  end.

(** The trigger a callback is registered with. *)
Definition trigger_of (cb : callback) : option trigger :=
  snd <$> find (fun job => callback_eqb (fst job) cb) job_queue.

Definition seconds_per_day : Z := 86400.

(** Modelled from the spec: when the job queue of the transport library
    fires a trigger (the queue is not part of the repository). [start] is
    the wall clock, in seconds since some midnight, at which the queue
    starts; [t] counts seconds from then. A repeating job fires at [first]
    and then at every [interval] (the delivery tick, "at a fixed short
    interval"); a daily job fires when the wall clock shows its time of day
    ("once at a fixed point in each calendar day"). *)
Definition fires (start : Z) (tr : trigger) (t : Z) : bool :=
  match tr with
  | Repeating interval first =>
      (first <=? t) && ((t - first) mod interval =? 0)
  | Daily second_of_day =>
      (0 <=? t) && ((start + t) mod seconds_per_day =? second_of_day)
  end.

(** The quota counter of a profile. *)
Definition translations_today (profile : json) : option Z :=
  match profile with
  | JObj d => match Py.dict_lookup "translations_today" d with
              | Some (JInt n) => Some n
              | _ => None
              end
  | _ => None
  end.

Definition zero_quota (profile : json) : json :=
  match profile with
  | JObj d => JObj (Py.dict_set "translations_today" (JInt 0) d)
  | _ => profile
  end.

(** Modelled from the spec: the handler [reset_translations], which [main]
    registers and the source file does not define. "Daily reset: sets
    translationsToday = 0 for every user", read and written back through
    the accessors as every mutation is. *)
Definition reset_translations : M unit :=
  users <~ get_users ;;
  save_users (map (fun kv => (fst kv, zero_quota (snd kv))) users).

(** Modelled from the spec: the increment that follows a successful
    translation (section 4.6), part of the message handlers the source file
    does not define. It is the only other writer of the counter the spec
    names. *)
Definition count_translation (user_id : Z) : M unit :=
  users <~ get_users ;;
  let uid := Py.str user_id in
  match Py.dict_lookup uid users with
  | Some (JObj d) =>
      match Py.dict_lookup "translations_today" d with
      | Some (JInt n) =>
          save_users
            (Py.dict_set uid
               (JObj (Py.dict_set "translations_today" (JInt (n + 1)) d)) users)
      | _ => ret tt
      end
  | _ => ret tt
  end.

(** The names [main] looks up in the module, in the order lines 187-214
    evaluate them (names of the libraries left out). *)
Definition main_references : list string :=
  [ "build_app"; "cmd_start"; "REG_LEVEL"; "reg_level"; "REG_COUNT";
    "reg_count"; "REG_TIME"; "reg_time"; "callback_handler"; "cmd_menu";
    "text_handler"; "cmd_makepremium"; "cmd_users"; "cmd_ping";
    "check_and_send"; "reset_translations" ].

(** The names the source file itself binds at module level. *)
Definition source_names : list string :=
  [ "BOT_TOKEN"; "ADMIN_ID_STR"; "ADMIN_ID"; "USERS_FILE"; "WORDS_FILE";
    "LOG_FILE"; "logger"; "translator"; "load_json"; "save_json";
    "get_users"; "save_users"; "get_words"; "save_words"; "ensure_user";
    "SAMPLE_WORDS_POOL"; "fetch_word_info"; "ensure_words";
    "REG_LEVEL"; "REG_COUNT"; "REG_TIME"; "cmd_menu"; "build_app"; "main" ].

Inductive main_step : Type :=
| Lookup (name : string)
| RunRepeating (cb : callback) (interval first : Z)
| RunDaily (cb : callback) (second_of_day : Z).

(** [main], line by line, as far as names and jobs go. *)
Definition main_steps : list main_step :=
  [ Lookup "build_app";
    Lookup "cmd_start";
    Lookup "REG_LEVEL"; Lookup "reg_level";
    Lookup "REG_COUNT"; Lookup "reg_count";
    Lookup "REG_TIME"; Lookup "reg_time";
    Lookup "callback_handler";
    Lookup "cmd_menu";
    Lookup "text_handler";
    Lookup "cmd_makepremium";
    Lookup "cmd_users";
    Lookup "cmd_ping";
    Lookup "check_and_send"; RunRepeating check_and_send 60 10;
    Lookup "reset_translations"; RunDaily reset_translations_job midnight ].

(** Looking up a name the module does not bind raises [NameError]. *)
Fixpoint run_main (names : list string) (steps : list main_step)
    (jobs : list (callback * trigger)) : result (list (callback * trigger)) :=
  match steps with
  | [] => Ok jobs
  | Lookup name :: rest =>
      if bool_decide (name ∈ names) then run_main names rest jobs
      else Raise NameError
  | RunRepeating cb interval first :: rest =>
      run_main names rest (jobs ++ [(cb, Repeating interval first)])
  | RunDaily cb second_of_day :: rest =>
      run_main names rest (jobs ++ [(cb, Daily second_of_day)])
  end.

(** [main()] in a module that binds [names]: the jobs registered when it
    reaches [run_polling], or the exception that stops it before. *)
Definition main (names : list string) : result (list (callback * trigger)) :=
  run_main names main_steps [].

End Scheduler.

(** ** Inputs for the further properties *)

(** A users file that holds a JSON list, and a words file that holds a
    JSON object: valid JSON of the wrong type for its accessor. *)
Definition mistyped_files : world :=
  World {[ USERS_FILE := Holds (JList [JInt 1]);
           WORDS_FILE := Holds (JObj [("apple", JInt 1)]) ]} [] [].

(** One user stored, and the next dump breaking off midway. *)
Definition dump_breaks : world :=
  World {[ USERS_FILE := Holds (JObj [("7", new_profile (Some "ann"))]) ]}
        [DumpFails OSError] [].

(** One user stored, and the next [open] for writing refused. *)
Definition open_refused : world :=
  World {[ USERS_FILE := Holds (JObj [("7", new_profile (Some "ann"))]) ]}
        [OpenFails PermissionError] [].

(** A dictionary service that answers 404 with a JSON body, as the real
    one does for an unknown word. *)
Definition not_found_env : env :=
  Env (fun l => l)
      (fun _ _ => Response 404 (Ok (JObj [("title", JStr "No Definitions Found")])))
      (fun _ _ _ => Ok "x").

(** A response of the shape the dictionary service documents. *)
Definition sample_sense : list (string * json) :=
  [ ("definition", JStr "A common, round fruit"); ("synonyms", JList []) ].

Definition sample_meaning : list (string * json) :=
  [ ("partOfSpeech", JStr "noun"); ("definitions", JList [JObj sample_sense]) ].

Definition sample_entry : list (string * json) :=
  [ ("word", JStr "apple"); ("meanings", JList [JObj sample_meaning]) ].

Definition sample_response : json := JList [JObj sample_entry].

(** A corpus whose second item has lost its ["word"]. *)
Definition keyless_item_stored : world :=
  World {[ WORDS_FILE :=
             Holds (JList [ make_item "apple" "" (JStr "");
                            JObj [("translation", JStr "kniga")];
                            make_item "water" "" (JStr "") ]) ]} [] [].

(** ** The run of the loop, request by request *)

(** How often [c] occurs in [l]. *)
Definition occurrences (c : string) (l : list string) : nat :=
  length (filter (fun x => x = c) l).

(** The course of the [for] loop when no scan raises and the bound is not
    reached, read off its branches: [n] requests have been sent so far,
    [done] are the words of the batch; a candidate that is stored or in the
    batch is passed over ([continue]); any other candidate is requested,
    and joins the batch exactly when that request succeeds. The last two
    arguments are the words requested, in order, and the words of the
    batch at the end. *)
Inductive loop_run (E : env) (words : list json) :
    nat -> list string -> list string -> list string -> list string -> Prop :=
| run_end n done :
    loop_run E words n done [] [] done
| run_continue n done c rest rs done' :
    has_word words c = true \/ c ∈ done ->
    loop_run E words n done rest rs done' ->
    loop_run E words n done (c :: rest) rs done'
| run_append n done c rest rs done' :
    has_word words c = false -> c ∉ done ->
    enrichment_ok E n c = true ->
    loop_run E words (S n) (done ++ [c]) rest rs done' ->
    loop_run E words n done (c :: rest) (c :: rs) done'
| run_failure n done c rest rs done' :
    has_word words c = false -> c ∉ done ->
    enrichment_ok E n c = false ->
    loop_run E words (S n) done rest rs done' ->
    loop_run E words n done (c :: rest) (c :: rs) done'.

(** ** The quota counter across calls *)

(** The counter stored for the user keyed [u], if any. *)
Definition counter_of (u : string) (w : world) : option Z :=
  Py.dict_lookup u (stored_users w) ≫= Scheduler.translations_today.

(** Claim C10 as stated, for the writer the source file has: no sequence
    of calls of [ensure_user] lowers a stored counter. *)
Definition ensure_user_never_lowers
    (calls : list (Z * option string)) (w : world) : Prop :=
  let w' := foldl (fun w call => snd (ensure_user (fst call) (snd call) w)) w calls in
  forall u c c', counter_of u w = Some c -> counter_of u w' = Some c' -> c <= c'.

(** User 7 stored with thirty translations counted today, and the next
    dump breaking off midway. *)
Definition quota_used : world :=
  World {[ USERS_FILE :=
             Holds (JObj [("7", JObj [ ("username", JStr "ann");
                                       ("level", JStr "Beginner");
                                       ("words_per_day", JInt 5);
                                       ("time", JStr "09:00");
                                       ("is_premium", JBool false);
                                       ("learned_words", JList []);
                                       ("translations_today", JInt 30);
                                       ("target_lang", JStr "ru");
                                       ("pending_premium", JBool false) ])]) ]}
        [DumpFails OSError] [].

(** A JSON object or list: what [save_users] and [save_words] dump. *)
Definition is_collection (v : json) : Prop :=
  match v with
  | JObj _ | JList _ => True
  | _ => False
  end.

(** A users file that holds a JSON list, and nothing else on disk. *)
Definition users_is_list : world :=
  World {[ USERS_FILE := Holds (JList [JInt 1]) ]} [] [].

(** A words file that holds a JSON object, and nothing else on disk. *)
Definition words_is_object : world :=
  World {[ WORDS_FILE := Holds (JObj [("apple", JInt 1)]) ]} [] [].
(** * Properties *)

(** ** Python dicts *)

Lemma dict_contains_lookup k d :
  Py.dict_contains k d = true <-> is_Some (Py.dict_lookup k d).
Proof.
  induction d as [|[k' v] d IH]; simpl.
  - split; [discriminate | intros [? ?]; discriminate].
  - destruct (String.eqb k' k); simpl; [split; eauto | exact IH].
Qed.

Lemma dict_contains_false k d :
  Py.dict_contains k d = false <-> Py.dict_lookup k d = None.
Proof.
  rewrite <- not_true_iff_false, dict_contains_lookup.
  rewrite <- eq_None_not_Some. reflexivity.
Qed.

Lemma dict_set_fresh k v d :
  Py.dict_contains k d = false -> Py.dict_set k v d = d ++ [(k, v)].
Proof.
  induction d as [|[k' v'] d IH]; simpl; [reflexivity|].
  destruct (String.eqb k' k); simpl; [discriminate|].
  intros H. rewrite IH; auto.
Qed.

Lemma dict_lookup_set k v d : Py.dict_lookup k (Py.dict_set k v d) = Some v.
Proof.
  induction d as [|[k' v'] d IH]; simpl.
  - rewrite String.eqb_refl. reflexivity.
  - destruct (String.eqb k' k) eqn:Hk; simpl; rewrite Hk; auto.
Qed.

Lemma dict_lookup_set_ne k k' v d :
  k <> k' -> Py.dict_lookup k' (Py.dict_set k v d) = Py.dict_lookup k' d.
Proof.
  intros Hne. induction d as [|[k0 v0] d IH]; simpl.
  - destruct (String.eqb_spec k k'); congruence.
  - destruct (String.eqb_spec k0 k) as [->|Hk]; simpl.
    + destruct (String.eqb_spec k k'); congruence.
    + destruct (String.eqb_spec k0 k'); auto.
Qed.

(** ** The persistence store *)

Lemma load_json_eq path w :
  load_json path w = (Ok (load_value path w), load_world path w).
Proof.
  unfold load_json, try_except, bind, path_exists, read_json, load_value, load_world.
  destruct (files w !! path) as [[v|e]|] eqn:Hf; simpl; rewrite ?Hf; reflexivity.
Qed.

Lemma save_json_eq path data w :
  save_json path data w = (Ok tt, save_world path data w).
Proof.
  unfold save_json, try_except, write_json, save_world, next_outcome.
  destruct w as [fs [|[|e|e] fl] t]; simpl; reflexivity.
Qed.

Lemma get_users_eq w :
  get_users w = (Ok (stored_users w), load_world USERS_FILE w).
Proof.
  unfold get_users, bind, stored_users. rewrite load_json_eq.
  destruct (load_value USERS_FILE w); reflexivity.
Qed.

Lemma get_words_eq w :
  get_words w = (Ok (stored_words w), load_world WORDS_FILE w).
Proof.
  unfold get_words, bind, stored_words. rewrite load_json_eq.
  destruct (load_value WORDS_FILE w); reflexivity.
Qed.

Lemma load_world_files path w : files (load_world path w) = files w.
Proof. unfold load_world. destruct (files w !! path) as [[?|?]|]; reflexivity. Qed.

Lemma load_world_faults path w : faults (load_world path w) = faults w.
Proof. unfold load_world. destruct (files w !! path) as [[?|?]|]; reflexivity. Qed.

Lemma writes_of_app t1 t2 : writes_of (t1 ++ t2) = writes_of t1 ++ writes_of t2.
Proof. unfold writes_of. apply omap_app. Qed.

Lemma gets_of_app t1 t2 : gets_of (t1 ++ t2) = gets_of t1 ++ gets_of t2.
Proof. unfold gets_of. apply omap_app. Qed.

Lemma load_world_writes path w :
  writes_of (trace (load_world path w)) = writes_of (trace w).
Proof.
  unfold load_world. destruct (files w !! path) as [[?|?]|]; try reflexivity.
  simpl. rewrite writes_of_app. simpl. apply app_nil_r.
Qed.

Lemma load_world_gets path w :
  gets_of (trace (load_world path w)) = gets_of (trace w).
Proof.
  unfold load_world. destruct (files w !! path) as [[?|?]|]; try reflexivity.
  simpl. rewrite gets_of_app. simpl. apply app_nil_r.
Qed.

Lemma load_value_files path w w' :
  files w' = files w -> load_value path w' = load_value path w.
Proof. unfold load_value. intros ->. reflexivity. Qed.

Lemma load_world_holds path v w :
  files w !! path = Some (Holds v) -> load_world path w = w.
Proof. unfold load_world. intros ->. reflexivity. Qed.

Lemma save_world_writes path data w :
  writes_of (trace (save_world path data w))
  = writes_of (trace w) ++ [(path, data)].
Proof.
  unfold save_world. destruct (next_outcome w); simpl;
    rewrite ?writes_of_app; simpl; rewrite ?app_nil_r; reflexivity.
Qed.

Lemma save_world_ok path data w :
  next_outcome w = WriteOk ->
  files (save_world path data w) = <[path := Holds data]> (files w).
Proof. unfold save_world. intros ->. reflexivity. Qed.

(** ** The user registry *)

Lemma ensure_user_eq user_id username w :
  ensure_user user_id username w =
  let users := stored_users w in
  let w1 := load_world USERS_FILE w in
  let uid := Py.str user_id in
  if Py.dict_contains uid users
  then (Py.getitem_str (JObj users) uid, w1)
  else let users' := Py.dict_set uid (new_profile username) users in
       (Py.getitem_str (JObj users') uid, save_world USERS_FILE (JObj users') w1).
Proof.
  unfold ensure_user, bind. rewrite get_users_eq. simpl.
  destruct (Py.dict_contains (Py.str user_id) (stored_users w)); simpl.
  - reflexivity.
  - unfold save_users. rewrite save_json_eq. reflexivity.
Qed.

Lemma stored_users_holds w :
  stored_users w <> [] ->
  files w !! USERS_FILE = Some (Holds (JObj (stored_users w))).
Proof.
  unfold stored_users, load_value.
  destruct (files w !! USERS_FILE) as [[v|e]|]; simpl; try congruence.
  destruct v; congruence.
Qed.

Lemma stored_users_insert d fs fl t :
  stored_users (World (<[USERS_FILE := Holds (JObj d)]> fs) fl t) = d.
Proof.
  unfold stored_users, load_value. simpl. rewrite lookup_insert_eq. reflexivity.
Qed.

Lemma next_outcome_load path w : next_outcome (load_world path w) = next_outcome w.
Proof. unfold next_outcome. rewrite load_world_faults. reflexivity. Qed.

(** Once the identifier is stored, [ensure_user] returns the stored
    profile and leaves the whole world as it is. *)
Lemma ensure_user_present user_id username w p :
  Py.dict_lookup (Py.str user_id) (stored_users w) = Some p ->
  ensure_user user_id username w = (Ok p, w).
Proof.
  intros Hp. rewrite ensure_user_eq. cbv zeta.
  assert (Hc : Py.dict_contains (Py.str user_id) (stored_users w) = true)
    by (apply dict_contains_lookup; eauto).
  rewrite Hc. unfold Py.getitem_str. rewrite Hp.
  rewrite (load_world_holds USERS_FILE (JObj (stored_users w))); [reflexivity|].
  apply stored_users_holds. intros Hnil. rewrite Hnil in Hc. discriminate.
Qed.

(** C9. Storage failures are never surfaced: [load_json] always returns a
    value, which is the typed empty default ([{}] for the users file, [[]]
    for any other path) when the file is absent or cannot be read or
    parsed, the failure being logged; [save_json] always returns, and a
    failed write is logged instead of raised. *)
Theorem storage_failures_not_surfaced path data w :
  (exists v w', load_json path w = (Ok v, w') /\ files w' = files w /\
     match files w !! path with
     | Some (Holds x) => v = x /\ w' = w
     | Some (Broken e) =>
         v = (if String.eqb path USERS_FILE then JObj [] else JList []) /\
         trace w' = trace w ++ [LogLoadFailed path e]
     | None =>
         v = (if String.eqb path USERS_FILE then JObj [] else JList []) /\ w' = w
     end) /\
  (exists w', save_json path data w = (Ok tt, w') /\
     match next_outcome w with
     | WriteOk =>
         files w' = <[path := Holds data]> (files w) /\
         trace w' = trace w ++ [FileWrite path data]
     | OpenFails e =>
         files w' = files w /\
         trace w' = trace w ++ [FileWrite path data; LogSaveFailed path e]
     | DumpFails e =>
         trace w' = trace w ++ [FileWrite path data; LogSaveFailed path e]
     end) /\
  empty_default USERS_FILE = JObj [] /\
  empty_default WORDS_FILE = JList [].
Proof.
  split; [|split; [|split; reflexivity]].
  - exists (load_value path w), (load_world path w).
    split; [apply load_json_eq|]. split; [apply load_world_files|].
    unfold load_value, load_world, empty_default.
    destruct (files w !! path) as [[x|e]|]; simpl; auto.
  - exists (save_world path data w). split; [apply save_json_eq|].
    unfold save_world. destruct (next_outcome w); simpl;
      rewrite <- ?app_assoc; simpl; auto.
Qed.

(** C5. For an identifier that is not stored yet, [ensure_user] builds the
    profile with the documented defaults, returns it, and saves the whole
    collection with the new profile appended at once; when that write goes
    through, the store holds the enlarged collection. *)
Theorem ensure_user_new_defaults user_id username w :
  Py.dict_contains (Py.str user_id) (stored_users w) = false ->
  let profile :=
    JObj [ ("username", JStr (Py.or_empty username));
           ("level", JStr "Beginner"); ("words_per_day", JInt 5);
           ("time", JStr "09:00"); ("is_premium", JBool false);
           ("learned_words", JList []); ("translations_today", JInt 0);
           ("target_lang", JStr "ru"); ("pending_premium", JBool false) ] in
  let users' := stored_users w ++ [(Py.str user_id, profile)] in
  exists w',
    ensure_user user_id username w = (Ok profile, w') /\
    writes_of (trace w') = writes_of (trace w) ++ [(USERS_FILE, JObj users')] /\
    (next_outcome w = WriteOk -> stored_users w' = users').
Proof.
  intros Hnew profile users'. rewrite ensure_user_eq. cbv zeta. rewrite Hnew.
  rewrite (dict_set_fresh _ _ _ Hnew).
  change (new_profile username) with profile.
  change (stored_users w ++ [(Py.str user_id, profile)]) with users'.
  eexists. split; [|split].
  - f_equal. unfold Py.getitem_str.
    assert (Hl : Py.dict_lookup (Py.str user_id) users' = Some profile).
    { unfold users'. rewrite <- (dict_set_fresh _ _ _ Hnew).
      apply dict_lookup_set. }
    rewrite Hl. reflexivity.
  - rewrite save_world_writes, load_world_writes. reflexivity.
  - intros Hok. unfold save_world. rewrite next_outcome_load, Hok.
    apply stored_users_insert.
Qed.

Lemma ensure_user_new_defaults_witness :
  exists w',
    ensure_user 42 (Some "ann") empty_world
    = (Ok (JObj [ ("username", JStr "ann");
                  ("level", JStr "Beginner"); ("words_per_day", JInt 5);
                  ("time", JStr "09:00"); ("is_premium", JBool false);
                  ("learned_words", JList []); ("translations_today", JInt 0);
                  ("target_lang", JStr "ru"); ("pending_premium", JBool false) ]),
       w') /\
    stored_users w' = [("42", new_profile (Some "ann"))].
Proof.
  destruct (ensure_user_new_defaults 42 (Some "ann") empty_world) as (w' & Hrun & _ & Hst);
    [reflexivity|].
  exists w'. split; [exact Hrun|]. apply Hst. reflexivity.
Defined.

(** C1, as stated, fails when the save of the first call is refused: the
    profile is not on disk, so the second call builds it again and saves. *)
Lemma ensure_user_second_call_saves_again :
  ~ second_call_is_noop 1 None None first_write_refused.
Proof.
  unfold second_call_is_noop. intros H. vm_compute in H.
  destruct H as (_ & _ & H). discriminate H.
Qed.

(** C1, amended. When the identifier is already stored, or the save made by
    the first call goes through, the second call returns the very profile
    the first call returned and changes nothing at all: no file, no save
    attempt, no log entry. *)
Theorem ensure_user_idempotent user_id hint1 hint2 w :
  Py.dict_contains (Py.str user_id) (stored_users w) = true \/
  next_outcome w = WriteOk ->
  exists p w1,
    ensure_user user_id hint1 w = (Ok p, w1) /\
    ensure_user user_id hint2 w1 = (Ok p, w1) /\
    Py.dict_lookup (Py.str user_id) (stored_users w1) = Some p.
Proof.
  intros H.
  destruct (Py.dict_contains (Py.str user_id) (stored_users w)) eqn:Hc.
  - apply dict_contains_lookup in Hc as [p Hp].
    exists p, w. rewrite !(ensure_user_present _ _ _ _ Hp). auto.
  - destruct H as [H|Hok]; [discriminate|].
    set (p := new_profile hint1).
    set (users' := Py.dict_set (Py.str user_id) p (stored_users w)).
    assert (Hl : Py.dict_lookup (Py.str user_id) users' = Some p)
      by apply dict_lookup_set.
    exists p, (save_world USERS_FILE (JObj users') (load_world USERS_FILE w)).
    assert (Hst : stored_users
              (save_world USERS_FILE (JObj users') (load_world USERS_FILE w))
            = users').
    { unfold save_world. rewrite next_outcome_load, Hok.
      apply stored_users_insert. }
    split; [|split].
    + rewrite ensure_user_eq. cbv zeta. rewrite Hc. fold p. fold users'.
      unfold Py.getitem_str. rewrite Hl. reflexivity.
    + apply ensure_user_present. rewrite Hst. exact Hl.
    + rewrite Hst. exact Hl.
Qed.

Lemma ensure_user_idempotent_witness :
  exists p w1,
    ensure_user 7 (Some "ann") empty_world = (Ok p, w1) /\
    ensure_user 7 (Some "bob") w1 = (Ok p, w1) /\
    Py.dict_lookup "7" (stored_users w1) = Some p.
Proof.
  apply (ensure_user_idempotent 7 (Some "ann") (Some "bob") empty_world).
  right. reflexivity.
Defined.

(** ** Enrichment *)

Lemma enrich_eq E word dest data wd :
  enrich E word dest (Ok data) wd =
  (Ok (make_item word
         (translation_of E (length (gets_of (trace wd))) word dest)
         (definition_of data)), wd).
Proof.
  unfold enrich, bind, lift, try_except, translator_translate, ret,
    definition_of, translation_of.
  destruct (lookup_definition data);
    destruct (translate E (length (gets_of (trace wd))) word dest); reflexivity.
Qed.

Lemma enrich_raise E word dest e wd :
  enrich E word dest (Raise e) wd = (Raise e, wd).
Proof. reflexivity. Qed.

Lemma gets_of_snoc_get t url :
  length (gets_of (t ++ [HttpGet url])) = S (length (gets_of t)).
Proof. rewrite gets_of_app, length_app. simpl. lia. Qed.

(** One pass through the [try] statement of the loop: exactly one request
    is sent, nothing is written, and [new_added] gains the enriched item
    when the request succeeds overall and stays as it was otherwise. *)
Lemma attempt_eq E c acc wd :
  let n := length (gets_of (trace wd)) in
  exists evs,
    writes_of evs = [] /\ gets_of evs = [entry_url c] /\
    attempt E c acc wd =
    (Ok (if enrichment_ok E n c
         then acc ++ [make_item c (translation_of E (S n) c "ru")
                               (definition_of (response_data E n c))]
         else acc),
     World (files wd) (faults wd) (trace wd ++ evs)).
Proof.
  intros n. unfold attempt, try_except, bind, session_get, enrichment_ok,
    response_data. fold n.
  destruct (http_get E n (entry_url c)) as [e|status [data|e]]; simpl.
  - exists [HttpGet (entry_url c); LogSkipping c e].
    rewrite <- app_assoc. auto.
  - destruct (status =? 200) eqn:Hs.
    + rewrite enrich_eq. simpl. rewrite gets_of_snoc_get. fold n.
      exists [HttpGet (entry_url c)]. auto.
    + exists [HttpGet (entry_url c)]. auto.
  - destruct (status =? 200) eqn:Hs.
    + rewrite ?enrich_raise; simpl.
      exists [HttpGet (entry_url c); LogSkipping c e].
      rewrite <- app_assoc. auto.
    + exists [HttpGet (entry_url c)]. auto.
Qed.

Lemma fetch_word_info_eq E word dest wd :
  let n := length (gets_of (trace wd)) in
  exists wd',
    files wd' = files wd /\
    fetch_word_info E word dest wd =
    (Ok (if enrichment_ok E n word
         then Some (make_item word (translation_of E (S n) word dest)
                                   (definition_of (response_data E n word)))
         else None), wd').
Proof.
  intros n. unfold fetch_word_info, try_except, bind, session_get,
    enrichment_ok, response_data. fold n.
  destruct (http_get E n (entry_url word)) as [e|status [data|e]]; simpl.
  - eexists. split; [|reflexivity]. reflexivity.
  - destruct (status =? 200) eqn:Hs.
    + rewrite enrich_eq. simpl. rewrite gets_of_snoc_get. fold n.
      eexists. split; [|reflexivity]. reflexivity.
    + eexists. split; [|reflexivity]. reflexivity.
  - destruct (status =? 200) eqn:Hs.
    + rewrite ?enrich_raise; simpl. eexists. split; [|reflexivity]. reflexivity.
    + eexists. split; [|reflexivity]. reflexivity.
Qed.

(** ** Deduplication *)

Lemma word_key_make_item c tr df : word_key (make_item c tr df) = Some (JStr c).
Proof. reflexivity. Qed.

Lemma eq_str_true k c : Py.eq_str k c = true <-> k = JStr c.
Proof.
  destruct k; simpl; try (split; [discriminate | intros; congruence]).
  destruct (String.eqb_spec s c); split; congruence.
Qed.

Lemma has_word_keys items c :
  has_word items c = true <-> JStr c ∈ word_keys items.
Proof.
  unfold has_word, word_keys. rewrite existsb_exists, list_elem_of_omap.
  split.
  - intros (item & Hin & Hk). exists item. split; [apply list_elem_of_In; exact Hin|].
    destruct (word_key item) as [k|]; [|discriminate].
    apply eq_str_true in Hk. congruence.
  - intros (item & Hin & Hk). exists item. split; [apply list_elem_of_In; exact Hin|].
    rewrite Hk. apply eq_str_true. reflexivity.
Qed.

(** When the scan returns, it returns [has_word]. *)
Lemma any_word_eq_ok items c b :
  any_word_eq items c = Ok b -> has_word items c = b.
Proof.
  induction items as [|item items IH]; simpl.
  - congruence.
  - unfold Py.getitem_str, word_key.
    destruct item; simpl; try discriminate.
    destruct (Py.dict_lookup "word" kvs) as [k|]; simpl; [|discriminate].
    destruct (Py.eq_str k c); simpl; [congruence | exact IH].
Qed.

(** It returns whenever every item carries a ["word"]. *)
Lemma any_word_eq_keyed items c :
  Forall (fun item => is_Some (word_key item)) items ->
  any_word_eq items c = Ok (has_word items c).
Proof.
  induction 1 as [|item items [k Hk] _ IH]; simpl; [reflexivity|].
  rewrite Hk. destruct item; try discriminate. simpl in Hk |- *.
  rewrite Hk. simpl.
  destruct (Py.eq_str k c); simpl; [reflexivity | exact IH].
Qed.

Lemma word_keys_items added ws :
  Forall2 item_of added ws -> word_keys added = JStr <$> ws.
Proof.
  induction 1 as [|item c added ws (tr & df & ->) _ IH]; [reflexivity|].
  unfold word_keys in *. rewrite fmap_cons, <- IH. reflexivity.
Qed.

Lemma has_word_items added ws c :
  Forall2 item_of added ws -> has_word added c = true <-> c ∈ ws.
Proof.
  intros H. rewrite has_word_keys, (word_keys_items _ _ H), list_elem_of_fmap.
  split; [intros (x & [= ->] & Hx); exact Hx | eauto].
Qed.

Lemma has_word_app l1 l2 c : has_word (l1 ++ l2) c = has_word l1 c || has_word l2 c.
Proof. unfold has_word. apply existsb_app. Qed.

(** ** The candidate loop *)

Lemma world_eta wd : World (files wd) (faults wd) (trace wd ++ []) = wd.
Proof. destruct wd. simpl. rewrite app_nil_r. reflexivity. Qed.

Lemma geb_false a b : (a >=? b) = false -> a < b.
Proof. rewrite Z.geb_leb. apply Z.leb_gt. Qed.

Lemma geb_true a b : (a >=? b) = true -> b <= a.
Proof. rewrite Z.geb_leb. apply Z.leb_le. Qed.

Lemma loop_post_stop needed words cands acc :
  loop_post needed words cands acc (Ok acc).
Proof.
  exists [], []. rewrite app_nil_r.
  repeat split; try constructor; try lia; exfalso; eapply not_elem_of_nil; eauto.
Qed.

Lemma loop_post_skip needed words c rest acc r :
  loop_post needed words rest acc r -> loop_post needed words (c :: rest) acc r.
Proof.
  destruct r as [acc'|e]; [|auto].
  intros (added & ws & Ha & Hi & Hn & Hc & Hl).
  exists added, ws. repeat split; auto; try (apply Hc; assumption).
  apply list_elem_of_further. apply Hc. assumption.
Qed.

Lemma loop_post_take needed words c rest acc tr df r :
  Z.of_nat (length acc) < needed ->
  has_word words c = false -> has_word acc c = false ->
  loop_post needed words rest (acc ++ [make_item c tr df]) r ->
  loop_post needed words (c :: rest) acc r.
Proof.
  intros Hcap Hw Ha. destruct r as [acc'|e]; [|auto].
  intros (added & ws & Heq & Hi & Hn & Hc & Hl).
  assert (Hitem : Forall2 item_of [make_item c tr df] [c]).
  { repeat constructor. exists tr, df. reflexivity. }
  exists (make_item c tr df :: added), (c :: ws).
  split; [rewrite Heq, <- app_assoc; reflexivity|].
  split; [constructor; [exists tr, df; reflexivity | exact Hi]|].
  split; [|split].
  - constructor; [|exact Hn]. intros Hin.
    destruct (Hc c Hin) as (_ & _ & Hf).
    rewrite has_word_app in Hf. apply orb_false_elim in Hf as [_ Hf].
    assert (Ht : has_word [make_item c tr df] c = true)
      by (apply (has_word_items _ _ _ Hitem); apply list_elem_of_here).
    congruence.
  - intros x Hx. apply elem_of_cons in Hx as [->|Hx].
    + split; [apply list_elem_of_here | auto].
    + destruct (Hc x Hx) as (H1 & H2 & H3).
      rewrite has_word_app in H3. apply orb_false_elim in H3 as [H3 _].
      split; [apply list_elem_of_further; exact H1 | auto].
  - rewrite length_app in Hl. simpl in Hl. lia.
Qed.

Lemma for_candidates_sound E needed words cands : forall acc wd,
  exists r evs,
    for_candidates E needed words cands acc wd
    = (r, World (files wd) (faults wd) (trace wd ++ evs)) /\
    writes_of evs = [] /\
    loop_post needed words cands acc r.
Proof.
  induction cands as [|c rest IH]; intros acc wd.
  - exists (Ok acc), []. rewrite world_eta.
    split; [reflexivity|]. split; [reflexivity | apply loop_post_stop].
  - simpl. destruct (Z.of_nat (length acc) >=? needed) eqn:Hcap.
    { exists (Ok acc), []. rewrite world_eta.
      split; [reflexivity|]. split; [reflexivity | apply loop_post_stop]. }
    apply geb_false in Hcap. unfold bind at 1. unfold lift.
    destruct (any_word_eq words c) as [[|]|e] eqn:H1; simpl.
    + destruct (IH acc wd) as (r & evs & Hrun & Hw & Hpost).
      exists r, evs. split; [exact Hrun|]. split; [exact Hw|].
      apply loop_post_skip. exact Hpost.
    + destruct (any_word_eq acc c) as [[|]|e] eqn:H2; simpl.
      * destruct (IH acc wd) as (r & evs & Hrun & Hw & Hpost).
        exists r, evs. split; [exact Hrun|]. split; [exact Hw|].
        apply loop_post_skip. exact Hpost.
      * apply any_word_eq_ok in H1, H2.
        destruct (attempt_eq E c acc wd) as (evs1 & Hw1 & _ & Hat).
        unfold bind. rewrite Hat.
        match goal with |- context [for_candidates _ _ _ _ ?a ?w] =>
          destruct (IH a w) as (r & evs & Hrun & Hw & Hpost) end.
        simpl in Hrun. rewrite <- app_assoc in Hrun.
        exists r, (evs1 ++ evs). split; [exact Hrun|].
        split; [rewrite writes_of_app, Hw1, Hw; reflexivity|].
        destruct (enrichment_ok E (length (gets_of (trace wd))) c).
        -- eapply loop_post_take; eauto.
        -- apply loop_post_skip. exact Hpost.
      * exists (Raise e), []. rewrite world_eta. simpl. auto.
    + exists (Raise e), []. rewrite world_eta. simpl. auto.
Qed.

(** ** The corpus manager *)

Lemma ensure_words_eq E min_total w :
  ensure_words E min_total w =
  let words := stored_words w in
  if Z.of_nat (length words) >=? min_total
  then (Ok tt, load_world WORDS_FILE w)
  else
    let needed := needed_for min_total words in
    match for_candidates E needed words (candidates_for E needed) [] (loop_entry w) with
    | (Ok [], w3) => (Ok tt, w3)
    | (Ok (x :: l), w3) => (Ok tt, saved (words ++ x :: l) (length (x :: l)) w3)
    | (Raise e, w3) => (Raise e, w3)
    end.
Proof.
  unfold ensure_words. unfold bind at 1. rewrite get_words_eq. cbv zeta.
  destruct (Z.of_nat (length (stored_words w)) >=? min_total); [reflexivity|].
  unfold bind at 1. unfold emit at 1. fold (loop_entry w).
  unfold bind at 1.
  destruct (for_candidates E _ _ _ [] (loop_entry w)) as [[[|x l]|e] w3];
    try reflexivity.
  unfold bind, save_words. rewrite save_json_eq. reflexivity.
Qed.

Lemma stored_words_files w w' :
  files w' = files w -> stored_words w' = stored_words w.
Proof. intros H. unfold stored_words. rewrite (load_value_files _ _ _ H). reflexivity. Qed.

Lemma stored_words_insert l fs fl t :
  stored_words (World (<[WORDS_FILE := Holds (JList l)]> fs) fl t) = l.
Proof.
  unfold stored_words, load_value. simpl. rewrite lookup_insert_eq. reflexivity.
Qed.

Lemma stored_words_broken e fs fl t :
  stored_words (World (<[WORDS_FILE := Broken e]> fs) fl t) = [].
Proof.
  unfold stored_words, load_value. simpl. rewrite lookup_insert_eq. reflexivity.
Qed.

(** What the store holds after the batched save, by outcome of the write. *)
Lemma stored_words_saved words' n w3 :
  stored_words (saved words' n w3) =
  match next_outcome w3 with
  | WriteOk => words'
  | OpenFails _ => stored_words w3
  | DumpFails _ => []
  end.
Proof.
  unfold saved, save_world. destruct (next_outcome w3); simpl.
  - apply stored_words_insert.
  - apply stored_words_files. reflexivity.
  - apply stored_words_broken.
Qed.

(** A run that starts below the minimum, in closed form: the loop appends
    [added] without touching files, faults or the list of saves; then
    nothing more happens when [added] is empty, and otherwise the whole
    corpus [words ++ added] is saved once. *)
Lemma ensure_words_run E min_total w :
  let words := stored_words w in
  let needed := needed_for min_total words in
  Z.of_nat (length words) < min_total ->
  exists r added w3 w',
    ensure_words E min_total w = (r, w') /\
    loop_post needed words (candidates_for E needed) [] (Ok added) /\
    files w3 = files w /\ faults w3 = faults w /\
    writes_of (trace w3) = writes_of (trace w) /\
    match added with
    | [] => w' = w3
    | _ :: _ => r = Ok tt /\ w' = saved (words ++ added) (length added) w3
    end.
Proof.
  intros words needed Hlt. rewrite ensure_words_eq. cbv zeta.
  fold words. fold needed.
  destruct (Z.of_nat (length words) >=? min_total) eqn:Hge;
    [apply geb_true in Hge; lia|].
  destruct (for_candidates_sound E needed words (candidates_for E needed)
              [] (loop_entry w)) as (r & evs & Hrun & Hw & Hpost).
  rewrite Hrun.
  set (w3 := World (files (loop_entry w)) (faults (loop_entry w))
                   (trace (loop_entry w) ++ evs)).
  assert (Hf : files w3 = files w) by apply load_world_files.
  assert (Hfl : faults w3 = faults w) by apply load_world_faults.
  assert (Hwr : writes_of (trace w3) = writes_of (trace w)).
  { unfold w3, loop_entry. simpl. rewrite !writes_of_app, Hw, load_world_writes.
    simpl. rewrite !app_nil_r. reflexivity. }
  destruct r as [[|x l]|e].
  - exists (Ok tt), [], w3, w3. auto 10.
  - exists (Ok tt), (x :: l), w3, (saved (words ++ x :: l) (length (x :: l)) w3).
    auto 10.
  - exists (Raise e), [], w3, w3.
    split; [reflexivity|]. split; [apply loop_post_stop | auto].
Qed.

#[local] Instance JStr_inj : Inj (=) (=) JStr.
Proof. intros x y [= ->]. reflexivity. Qed.

Lemma loop_post_keys needed words cands added :
  NoDup (word_keys words) ->
  loop_post needed words cands [] (Ok added) ->
  NoDup (word_keys (words ++ added)).
Proof.
  intros Hnd (added' & ws & Heq & Hi & Hn & Hc & _). simpl in Heq. subst added'.
  unfold word_keys. rewrite omap_app. fold (word_keys words) (word_keys added).
  rewrite (word_keys_items _ _ Hi). apply NoDup_app. split; [exact Hnd|].
  split; [|apply (NoDup_fmap_2 JStr); exact Hn].
  intros k Hk Hk'. apply list_elem_of_fmap in Hk' as (c & -> & Hin).
  apply has_word_keys in Hk. destruct (Hc c Hin) as (_ & Hf & _). congruence.
Qed.

Lemma ensure_words_keeps_keys_distinct E min_total w :
  NoDup (word_keys (stored_words w)) ->
  NoDup (word_keys (stored_words (snd (ensure_words E min_total w)))).
Proof.
  intros Hnd.
  destruct (Z.of_nat (length (stored_words w)) >=? min_total) eqn:Hge.
  - rewrite ensure_words_eq. cbv zeta. rewrite Hge. simpl.
    rewrite (stored_words_files w); [exact Hnd | apply load_world_files].
  - apply geb_false in Hge.
    destruct (ensure_words_run E min_total w Hge)
      as (r & added & w3 & w' & Hrun & Hpost & Hf & Hfl & _ & Hend).
    rewrite Hrun. simpl. destruct added as [|x l].
    + subst w'. rewrite (stored_words_files w); auto.
    + destruct Hend as [_ ->]. rewrite stored_words_saved.
      destruct (next_outcome w3).
      * eapply loop_post_keys; eauto.
      * rewrite (stored_words_files w); auto.
      * constructor.
Qed.

(** C2. Corpus uniqueness: when no two stored items share a word key, no
    two items share one after any number of runs of [ensure_words],
    whatever the collaborators answer and whatever the writes do. *)
Theorem corpus_keys_stay_distinct calls w :
  NoDup (word_keys (stored_words w)) ->
  NoDup (word_keys (stored_words (run_ensure_words calls w))).
Proof.
  revert w. induction calls as [|[E n] calls IH]; intros w Hnd; [exact Hnd|].
  simpl. apply IH. apply ensure_words_keeps_keys_distinct. exact Hnd.
Qed.

Lemma corpus_keys_stay_distinct_witness :
  NoDup (word_keys (stored_words empty_world)) /\
  NoDup (word_keys (stored_words
    (run_ensure_words [(bare_env, 200); (bare_env, 40)] empty_world))).
Proof.
  split; [constructor|].
  apply (corpus_keys_stay_distinct [(bare_env, 200); (bare_env, 40)] empty_world).
  constructor.
Defined.

(** The frame conditions of a world that differs from [w] by the load of
    the words file only. *)
Ltac load_frame :=
  split; [apply load_world_files|];
  split; [apply stored_words_files, load_world_files|];
  split; [apply load_world_writes | apply load_world_gets].

(** At or above the minimum the call is the load and nothing else. *)
Lemma ensure_words_large_eq E min_total w :
  min_total <= Z.of_nat (length (stored_words w)) ->
  ensure_words E min_total w = (Ok tt, load_world WORDS_FILE w).
Proof.
  intros Hle. rewrite ensure_words_eq. cbv zeta.
  destruct (Z.of_nat (length (stored_words w)) >=? min_total) eqn:Hge;
    [reflexivity | apply geb_false in Hge; lia].
Qed.

(** C7. When the stored corpus already has at least [min_total] items,
    [ensure_words] returns at once: the files and the corpus are as before,
    no save is attempted and no request is sent. *)
Theorem ensure_words_noop_when_large E min_total w :
  min_total <= Z.of_nat (length (stored_words w)) ->
  exists w',
    ensure_words E min_total w = (Ok tt, w') /\
    files w' = files w /\
    stored_words w' = stored_words w /\
    writes_of (trace w') = writes_of (trace w) /\
    gets_of (trace w') = gets_of (trace w).
Proof.
  intros Hle. exists (load_world WORDS_FILE w).
  split; [apply ensure_words_large_eq, Hle|].
  load_frame.
Qed.

Lemma ensure_words_noop_when_large_witness :
  30 <= Z.of_nat (length (stored_words seeded_world)) /\
  exists w',
    ensure_words bare_env 30 seeded_world = (Ok tt, w') /\
    files w' = files seeded_world /\
    stored_words w' = stored_words seeded_world /\
    writes_of (trace w') = writes_of (trace seeded_world) /\
    gets_of (trace w') = gets_of (trace seeded_world).
Proof.
  split; [vm_compute; discriminate|].
  apply (ensure_words_noop_when_large bare_env 30 seeded_world).
  vm_compute; discriminate.
Defined.

(** C4. When the request for a word succeeds overall (status 200 and a
    body that parses), both enrichment paths produce the item: a definition
    lookup that raises leaves the empty string as definition, a translation
    that raises leaves the empty string as translation, independently of
    one another; [fetch_word_info] returns the item and the loop of
    [ensure_words] appends it to the batch. *)
Theorem enrichment_tolerates_partial_failure E word dest new_added wd :
  let n := length (gets_of (trace wd)) in
  let definition :=
    match lookup_definition (response_data E n word) with
    | Ok v => v
    | Raise _ => JStr ""
    end in
  let translated d :=
    match translate E (S n) word d with
    | Ok s => s
    | Raise _ => ""
    end in
  enrichment_ok E n word = true ->
  (exists wd',
     fetch_word_info E word dest wd =
     (Ok (Some (JObj [ ("word", JStr word);
                       ("translation", JStr (translated dest));
                       ("definition", definition);
                       ("level", JStr "Beginner") ])), wd')) /\
  (exists wd',
     attempt E word new_added wd =
     (Ok (new_added ++ [JObj [ ("word", JStr word);
                               ("translation", JStr (translated "ru"));
                               ("definition", definition);
                               ("level", JStr "Beginner") ]]), wd')).
Proof.
  intros n definition translated Hok. split.
  - destruct (fetch_word_info_eq E word dest wd) as (wd' & _ & Hrun).
    fold n in Hrun. rewrite Hok in Hrun. exists wd'. exact Hrun.
  - destruct (attempt_eq E word new_added wd) as (evs & _ & _ & Hrun).
    fold n in Hrun. rewrite Hok in Hrun. eexists. exact Hrun.
Qed.

Lemma enrichment_tolerates_partial_failure_witness :
  (exists wd',
     fetch_word_info bare_env "apple" "ru" empty_world =
     (Ok (Some (JObj [ ("word", JStr "apple"); ("translation", JStr "");
                       ("definition", JStr ""); ("level", JStr "Beginner") ])),
      wd')) /\
  (exists wd',
     attempt bare_env "apple" [] empty_world =
     (Ok [JObj [ ("word", JStr "apple"); ("translation", JStr "");
                 ("definition", JStr ""); ("level", JStr "Beginner") ]], wd')).
Proof.
  apply (enrichment_tolerates_partial_failure bare_env "apple" "ru" [] empty_world).
  reflexivity.
Defined.

(** ** The seed pool bounds the corpus *)

Lemma pool_NoDup : NoDup SAMPLE_WORDS_POOL.
Proof. apply (bool_decide_unpack _). vm_compute. exact I. Qed.

Lemma pool_length : length SAMPLE_WORDS_POOL = 30%nat.
Proof. reflexivity. Qed.

Lemma elem_of_list_mul {A} (l : list A) k x : x ∈ Py.list_mul l k -> x ∈ l.
Proof.
  unfold Py.list_mul. intros H. apply list_elem_of_join in H as (l' & Hx & Hl').
  apply elem_of_replicate in Hl' as [-> _]. exact Hx.
Qed.

Lemma list_mul_elem_of {A} (l : list A) k x : 0 < k -> x ∈ l -> x ∈ Py.list_mul l k.
Proof.
  unfold Py.list_mul. intros Hk Hx. apply list_elem_of_join. exists l.
  split; [exact Hx|]. apply elem_of_replicate. split; [reflexivity | lia].
Qed.

Lemma needed_for_ge min_total words : 50 <= needed_for min_total words.
Proof. unfold needed_for. lia. Qed.

Lemma candidates_in_pool E needed c :
  (forall l, shuffle E l ≡ₚ l) ->
  c ∈ candidates_for E needed -> c ∈ SAMPLE_WORDS_POOL.
Proof.
  intros Hp Hc. unfold candidates_for in Hc. rewrite Hp in Hc.
  eapply elem_of_list_mul. exact Hc.
Qed.

Lemma pool_in_candidates E needed c :
  (forall l, shuffle E l ≡ₚ l) -> 50 <= needed ->
  c ∈ SAMPLE_WORDS_POOL -> c ∈ candidates_for E needed.
Proof.
  intros Hp Hn Hc. unfold candidates_for. rewrite Hp.
  apply list_mul_elem_of; [|exact Hc].
  rewrite pool_length. assert (0 <= needed / 30) by (apply Z.div_pos; lia). lia.
Qed.

Lemma seed_corpus_nil : seed_corpus [].
Proof. split; constructor. Qed.

Lemma seed_corpus_keyed words :
  seed_corpus words -> Forall (fun item => is_Some (word_key item)) words.
Proof.
  intros [_ H]. eapply Forall_impl; [exact H|].
  intros item (c & _ & ->). eauto.
Qed.

Lemma word_keys_length words :
  Forall (fun item => is_Some (word_key item)) words ->
  length (word_keys words) = length words.
Proof.
  induction 1 as [|item words [k Hk] _ IH]; [reflexivity|].
  unfold word_keys in *.
  change (omap word_key (item :: words))
    with (match word_key item with
          | Some k => k :: omap word_key words
          | None => omap word_key words
          end).
  rewrite Hk. simpl. rewrite IH. reflexivity.
Qed.

Lemma seed_corpus_length words : seed_corpus words -> (length words <= 30)%nat.
Proof.
  intros Hs. rewrite <- (word_keys_length words (seed_corpus_keyed _ Hs)).
  destruct Hs as [Hnd Hall].
  change 30%nat with (length (JStr <$> SAMPLE_WORDS_POOL)).
  apply submseteq_length, NoDup_submseteq; [exact Hnd|].
  intros k Hk. apply list_elem_of_omap in Hk as (item & Hin & Hkey).
  rewrite Forall_forall in Hall. destruct (Hall item Hin) as (c & Hc & Hkey').
  rewrite Hkey in Hkey'. injection Hkey' as ->.
  apply list_elem_of_fmap. eauto.
Qed.

Lemma seed_corpus_app E needed words added :
  (forall l, shuffle E l ≡ₚ l) ->
  seed_corpus words ->
  loop_post needed words (candidates_for E needed) [] (Ok added) ->
  seed_corpus (words ++ added).
Proof.
  intros Hp [Hnd Hall] Hpost. split; [eapply loop_post_keys; eauto|].
  apply Forall_app. split; [exact Hall|].
  destruct Hpost as (added' & ws & Heq & Hi & _ & Hc & _).
  simpl in Heq. subst added'. clear -Hp Hi Hc.
  induction Hi as [|item c added ws (tr & df & ->) Hi IH]; constructor.
  - exists c. split; [|reflexivity].
    eapply candidates_in_pool; [exact Hp|]. apply (Hc c), list_elem_of_here.
  - apply IH. intros x Hx. apply Hc, list_elem_of_further, Hx.
Qed.

Lemma ensure_words_seed_corpus E min_total w :
  (forall l, shuffle E l ≡ₚ l) ->
  seed_corpus (stored_words w) ->
  seed_corpus (stored_words (snd (ensure_words E min_total w))).
Proof.
  intros Hp Hs.
  destruct (Z.of_nat (length (stored_words w)) >=? min_total) eqn:Hge.
  - rewrite ensure_words_eq. cbv zeta. rewrite Hge. simpl.
    rewrite (stored_words_files w); [exact Hs | apply load_world_files].
  - apply geb_false in Hge.
    destruct (ensure_words_run E min_total w Hge)
      as (r & added & w3 & w' & Hrun & Hpost & Hf & Hfl & _ & Hend).
    rewrite Hrun. simpl. destruct added as [|x l].
    + subst w'. rewrite (stored_words_files w); auto.
    + destruct Hend as [_ ->]. rewrite stored_words_saved.
      destruct (next_outcome w3).
      * eapply seed_corpus_app; eauto.
      * rewrite (stored_words_files w); auto.
      * apply seed_corpus_nil.
Qed.

Lemma save_world_other_file path path' data w :
  path <> path' -> files (save_world path data w) !! path' = files w !! path'.
Proof.
  intros Hne. unfold save_world.
  destruct (next_outcome w); simpl; rewrite ?lookup_insert_ne; auto.
Qed.

Lemma ensure_user_stored_words user_id username w :
  stored_words (snd (ensure_user user_id username w)) = stored_words w.
Proof.
  rewrite ensure_user_eq. cbv zeta.
  destruct (Py.dict_contains _ _); simpl.
  - apply stored_words_files, load_world_files.
  - unfold stored_words, load_value.
    rewrite save_world_other_file by discriminate.
    rewrite load_world_files. reflexivity.
Qed.

Lemma reachable_seed_corpus w : reachable w -> seed_corpus (stored_words w).
Proof.
  induction 1 as [fl | E n w Hp _ IH | uid name w _ IH | E word dest w _ IH].
  - apply seed_corpus_nil.
  - apply ensure_words_seed_corpus; assumption.
  - rewrite ensure_user_stored_words. exact IH.
  - destruct (fetch_word_info_eq E word dest w) as (wd' & Hf & Hrun).
    rewrite Hrun. simpl. rewrite (stored_words_files w); assumption.
Qed.

(** With every candidate already keyed in [words], the loop passes over
    all of them: no request, no event, [new_added] as it was. *)
Lemma for_candidates_all_stored E needed words cands acc wd :
  Forall (fun item => is_Some (word_key item)) words ->
  Forall (fun c => has_word words c = true) cands ->
  for_candidates E needed words cands acc wd = (Ok acc, wd).
Proof.
  intros Hk. induction 1 as [|c rest Hc _ IH]; [reflexivity|].
  simpl. destruct (Z.of_nat (length acc) >=? needed); [reflexivity|].
  unfold bind at 1. unfold lift.
  rewrite (any_word_eq_keyed _ _ Hk), Hc. simpl. exact IH.
Qed.

(** C6. In every world the program reaches from an empty store, the corpus
    has at most 30 items, the size of the seed pool; so a call with the
    default minimum of 200 leaves it below 200; and once every seed word is
    stored, a call of [ensure_words] changes no file, attempts no save and
    sends no request. *)
Theorem corpus_never_exceeds_seed_pool w :
  reachable w ->
  (length (stored_words w) <= 30)%nat /\
  (forall E, (forall l, shuffle E l ≡ₚ l) ->
     Z.of_nat (length (stored_words (snd (ensure_words E 200 w)))) < 200) /\
  (forall E min_total,
     (forall l, shuffle E l ≡ₚ l) ->
     (forall c, c ∈ SAMPLE_WORDS_POOL -> has_word (stored_words w) c = true) ->
     exists w',
       ensure_words E min_total w = (Ok tt, w') /\
       files w' = files w /\
       stored_words w' = stored_words w /\
       writes_of (trace w') = writes_of (trace w) /\
       gets_of (trace w') = gets_of (trace w)).
Proof.
  intros Hr. split; [|split].
  - apply seed_corpus_length, reachable_seed_corpus, Hr.
  - intros E Hp.
    pose proof (seed_corpus_length _
      (reachable_seed_corpus _ (reach_ensure_words E 200 w Hp Hr))).
    lia.
  - intros E min_total Hp Hall.
    destruct (Z.of_nat (length (stored_words w)) >=? min_total) eqn:Hge.
    + apply geb_true in Hge. exists (load_world WORDS_FILE w).
      split; [apply ensure_words_large_eq, Hge | load_frame].
    + exists (loop_entry w). rewrite ensure_words_eq. cbv zeta. rewrite Hge.
      rewrite for_candidates_all_stored.
      * split; [reflexivity|]. unfold loop_entry. simpl.
        rewrite writes_of_app, gets_of_app, load_world_writes, load_world_gets.
        simpl. rewrite !app_nil_r.
        split; [apply load_world_files|].
        split; [apply stored_words_files, load_world_files | auto].
      * apply seed_corpus_keyed, reachable_seed_corpus, Hr.
      * apply Forall_forall. intros c Hc. apply Hall.
        eapply candidates_in_pool; eauto.
Qed.

Lemma corpus_never_exceeds_seed_pool_witness :
  reachable seeded_world /\
  (length (stored_words seeded_world) <= 30)%nat /\
  Z.of_nat (length (stored_words (snd (ensure_words bare_env 200 seeded_world)))) < 200.
Proof.
  assert (Hp : forall l, shuffle bare_env l ≡ₚ l) by reflexivity.
  assert (Hr : reachable seeded_world).
  { apply (reach_ensure_words bare_env 200 empty_world Hp). apply (reach_init []). }
  split; [exact Hr|].
  destruct (corpus_never_exceeds_seed_pool seeded_world Hr) as (Hlen & Hlow & _).
  split; [exact Hlen | exact (Hlow bare_env Hp)].
Defined.

(** ** Failed candidates *)

Lemma enrichment_ok_steady E n c :
  steady E -> enrichment_ok E n c = enrichment_ok E 0 c.
Proof. intros Hs. unfold enrichment_ok. rewrite (Hs n 0%nat). reflexivity. Qed.

Lemma items_keyed acc ws :
  Forall2 item_of acc ws -> Forall (fun item => is_Some (word_key item)) acc.
Proof.
  induction 1 as [|item c acc ws (tr & df & ->) _ IH]; constructor; eauto.
Qed.

Lemma pool_sublist_length (ws : list string) :
  NoDup ws -> (forall c, c ∈ ws -> c ∈ SAMPLE_WORDS_POOL) -> (length ws <= 30)%nat.
Proof.
  intros Hn Hsub. rewrite <- pool_length.
  apply submseteq_length, NoDup_submseteq; assumption.
Qed.

(** With a steady dictionary service, a corpus whose items all carry a
    key and a bound above the size of the pool, the loop ends normally
    having entries for exactly the candidates that were not stored and
    whose request succeeds. *)
Lemma for_candidates_complete E needed words cands :
  steady E ->
  Forall (fun item => is_Some (word_key item)) words ->
  30 < needed ->
  forall acc ws0 wd,
    Forall2 item_of acc ws0 -> NoDup ws0 ->
    (forall c, c ∈ ws0 -> c ∈ SAMPLE_WORDS_POOL) ->
    (forall c, c ∈ cands -> c ∈ SAMPLE_WORDS_POOL) ->
    exists acc' ws' wd',
      for_candidates E needed words cands acc wd = (Ok acc', wd') /\
      Forall2 item_of acc' ws' /\ NoDup ws' /\
      (forall x, x ∈ ws' <->
         x ∈ ws0 \/ (x ∈ cands /\ has_word words x = false /\
                     enrichment_ok E 0 x = true)).
Proof.
  intros Hst Hk Hbig.
  induction cands as [|c rest IH]; intros acc ws0 wd Hi Hn Hsub Hcs.
  - exists acc, ws0, wd. split; [reflexivity|]. split; [exact Hi|].
    split; [exact Hn|]. intros x. rewrite elem_of_nil. tauto.
  - assert (Hrest : forall x, x ∈ rest -> x ∈ SAMPLE_WORDS_POOL)
      by (intros x Hx; apply Hcs, list_elem_of_further, Hx).
    simpl. destruct (Z.of_nat (length acc) >=? needed) eqn:Hcap.
    { apply geb_true in Hcap. pose proof (pool_sublist_length ws0 Hn Hsub).
      pose proof (Forall2_length _ _ _ Hi). lia. }
    unfold bind at 1. unfold lift. rewrite (any_word_eq_keyed _ _ Hk).
    destruct (has_word words c) eqn:Hw; simpl.
    { destruct (IH acc ws0 wd Hi Hn Hsub Hrest) as (acc' & ws' & wd' & Hrun & Hi' & Hn' & Hiff).
      exists acc', ws', wd'. split; [exact Hrun|]. split; [exact Hi'|].
      split; [exact Hn'|]. intros x. rewrite Hiff, elem_of_cons.
      split; [tauto|]. intros [?|[[->|?] [? ?]]]; [tauto | congruence | tauto]. }
    rewrite (any_word_eq_keyed _ _ (items_keyed _ _ Hi)).
    destruct (has_word acc c) eqn:Ha; simpl.
    { apply (has_word_items _ _ _ Hi) in Ha.
      destruct (IH acc ws0 wd Hi Hn Hsub Hrest) as (acc' & ws' & wd' & Hrun & Hi' & Hn' & Hiff).
      exists acc', ws', wd'. split; [exact Hrun|]. split; [exact Hi'|].
      split; [exact Hn'|]. intros x. rewrite Hiff, elem_of_cons.
      split; [tauto|]. intros [?|[[->|?] [? ?]]]; tauto. }
    assert (Hfresh : c ∉ ws0).
    { intros Hin. apply (has_word_items _ _ _ Hi) in Hin. congruence. }
    destruct (attempt_eq E c acc wd) as (evs & _ & _ & Hat).
    unfold bind. rewrite Hat. rewrite (enrichment_ok_steady _ _ _ Hst).
    destruct (enrichment_ok E 0 c) eqn:Hok.
    + match goal with |- context [for_candidates _ _ _ _ (acc ++ [?it]) ?w] =>
        destruct (IH (acc ++ [it]) (ws0 ++ [c]) w)
          as (acc' & ws' & wd' & Hrun & Hi' & Hn' & Hiff) end.
      * apply Forall2_app; [exact Hi|]. repeat constructor. eexists _, _. reflexivity.
      * apply NoDup_app. split; [exact Hn|]. split; [|apply NoDup_singleton].
        intros x Hx Hx'. apply list_elem_of_singleton in Hx'. congruence.
      * intros x Hx. apply elem_of_app in Hx as [Hx|Hx]; [auto|].
        apply list_elem_of_singleton in Hx as ->. apply Hcs, list_elem_of_here.
      * exact Hrest.
      * exists acc', ws', wd'. split; [exact Hrun|]. split; [exact Hi'|].
        split; [exact Hn'|]. intros x.
        rewrite Hiff, elem_of_app, list_elem_of_singleton, elem_of_cons.
        split; [|tauto]. intros [[? | ->] | ?]; tauto.
    + match goal with |- context [for_candidates _ _ _ _ acc ?w] =>
        destruct (IH acc ws0 w Hi Hn Hsub Hrest)
          as (acc' & ws' & wd' & Hrun & Hi' & Hn' & Hiff) end.
      exists acc', ws', wd'. split; [exact Hrun|]. split; [exact Hi'|].
      split; [exact Hn'|]. intros x. rewrite Hiff, elem_of_cons.
      split; [tauto|]. intros [?|[[->|?] [? ?]]]; [tauto | congruence | tauto].
Qed.

Lemma items_have_words (P : string -> Prop) acc ws :
  Forall2 item_of acc ws -> (forall c, c ∈ ws -> P c) ->
  Forall (fun item => exists c, item_of item c /\ P c) acc.
Proof.
  induction 1 as [|item c acc ws Hitem _ IH]; intros HP; constructor.
  - exists c. split; [exact Hitem | apply HP, list_elem_of_here].
  - apply IH. intros x Hx. apply HP, list_elem_of_further, Hx.
Qed.

(** C3, as stated, fails: with ten seed words missing and the first two
    requests timing out, both words are requested again later in the same
    call, succeed then, and the corpus grows by ten. *)
Lemma failed_candidate_is_retried :
  ~ failures_skipped_for_good flaky_env 200 twenty_stored.
Proof.
  intros [Honce _].
  assert (Hfailed : entry_url "apple" ∈ failed_requests flaky_env 200 twenty_stored)
    by (vm_compute; apply list_elem_of_here).
  apply Honce in Hfailed. vm_compute in Hfailed. discriminate Hfailed.
Qed.

(** The same run in figures: "apple" is requested twice and all thirty
    seed words end up stored. *)
Example flaky_run_requests_apple_twice :
  length (filter (fun u => u = entry_url "apple")
                 (call_requests flaky_env 200 twenty_stored)) = 2%nat /\
  length (stored_words (snd (ensure_words flaky_env 200 twenty_stored))) = 30%nat.
Proof. vm_compute. split; reflexivity. Qed.

Lemma two_fail_env_steady : steady two_fail_env.
Proof. intros n n' url. reflexivity. Qed.

Lemma twenty_stored_keyed :
  Forall (fun item => is_Some (word_key item)) (stored_words twenty_stored).
Proof.
  apply (items_keyed _ (drop 10 SAMPLE_WORDS_POOL)).
  apply Forall2_fmap_l, Forall_Forall2_diag, Forall_forall.
  intros c _. eexists _, _. reflexivity.
Qed.

(** ** The scheduler and the quota counter *)

Module SchedulerFacts.
Import Scheduler.

Lemma tick_spacing start t :
  fires start (Repeating 60 10) t = true ->
  fires start (Repeating 60 10) (t + 60) = true /\
  forall t', t < t' < t + 60 -> fires start (Repeating 60 10) t' = false.
Proof.
  unfold fires. rewrite andb_true_iff, Z.leb_le, Z.eqb_eq. intros [H1 H2].
  split.
  - apply andb_true_iff. rewrite Z.leb_le, Z.eqb_eq.
    split; [lia | Z.div_mod_to_equations; lia].
  - intros t' Ht'. apply andb_false_iff. right. apply Z.eqb_neq.
    Z.div_mod_to_equations. lia.
Qed.

Lemma first_tick start t :
  t < 10 -> fires start (Repeating 60 10) t = false.
Proof.
  intros Ht. unfold fires. apply andb_false_iff. left. apply Z.leb_gt. exact Ht.
Qed.

Lemma reset_once_a_day start day T :
  start <= T ->
  seconds_per_day * day <= T < seconds_per_day * (day + 1) ->
  fires start (Daily midnight) (T - start) = true <-> T = seconds_per_day * day.
Proof.
  unfold fires, seconds_per_day, midnight, time_of_day. intros Hs Hday.
  rewrite andb_true_iff, Z.leb_le, Z.eqb_eq.
  replace (start + (T - start)) with T by lia.
  split.
  - intros [_ H]. Z.div_mod_to_equations. lia.
  - intros ->. split; [lia|]. Z.div_mod_to_equations. lia.
Qed.

Lemma dict_lookup_map f k (d : list (string * json)) :
  Py.dict_lookup k (map (fun kv => (fst kv, f (snd kv))) d)
  = f <$> Py.dict_lookup k d.
Proof.
  induction d as [|[k' v] d IH]; simpl; [reflexivity|].
  destruct (String.eqb k' k); [reflexivity | exact IH].
Qed.

Lemma translations_today_zero d :
  translations_today (zero_quota (JObj d)) = Some 0.
Proof. simpl. rewrite dict_lookup_set. reflexivity. Qed.

Lemma stored_users_files w w' :
  files w' = files w -> stored_users w' = stored_users w.
Proof. intros H. unfold stored_users. rewrite (load_value_files _ _ _ H). reflexivity. Qed.

Lemma stored_users_saved users' w :
  next_outcome w = WriteOk ->
  stored_users (save_world USERS_FILE (JObj users') (load_world USERS_FILE w)) = users'.
Proof.
  intros Hok. unfold save_world. rewrite next_outcome_load, Hok.
  apply stored_users_insert.
Qed.

Lemma reset_translations_zeroes w uid d :
  next_outcome w = WriteOk ->
  Py.dict_lookup uid (stored_users w) = Some (JObj d) ->
  exists w' p',
    reset_translations w = (Ok tt, w') /\
    Py.dict_lookup uid (stored_users w') = Some p' /\
    translations_today p' = Some 0.
Proof.
  intros Hok Hl. unfold reset_translations, bind. rewrite get_users_eq.
  unfold save_users. rewrite save_json_eq.
  eexists _, (zero_quota (JObj d)). split; [reflexivity|].
  rewrite (stored_users_saved _ _ Hok), dict_lookup_map, Hl.
  split; [reflexivity | apply translations_today_zero].
Qed.

Lemma ensure_user_keeps_profiles user_id username w u p :
  next_outcome w = WriteOk ->
  Py.dict_lookup u (stored_users w) = Some p ->
  Py.dict_lookup u (stored_users (snd (ensure_user user_id username w))) = Some p.
Proof.
  intros Hok Hl. rewrite ensure_user_eq. cbv zeta.
  destruct (Py.dict_contains (Py.str user_id) (stored_users w)) eqn:Hc; simpl.
  - rewrite (stored_users_files w); [exact Hl | apply load_world_files].
  - rewrite (stored_users_saved _ _ Hok), dict_lookup_set_ne; [exact Hl|].
    intros <-. apply dict_contains_false in Hc. congruence.
Qed.

Lemma count_translation_increments user_id w u p c :
  next_outcome w = WriteOk ->
  Py.dict_lookup u (stored_users w) = Some p ->
  translations_today p = Some c ->
  exists p',
    Py.dict_lookup u (stored_users (snd (count_translation user_id w))) = Some p' /\
    translations_today p' = Some (if String.eqb (Py.str user_id) u then c + 1 else c).
Proof.
  intros Hok Hl Hc. unfold count_translation, bind. rewrite get_users_eq.
  assert (Hsame : stored_users (load_world USERS_FILE w) = stored_users w)
    by apply stored_users_files, load_world_files.
  destruct (String.eqb_spec (Py.str user_id) u) as [->|Hne].
  - rewrite Hl. destruct p as [| | | | | |d]; try discriminate.
    simpl in Hc.
    destruct (Py.dict_lookup "translations_today" d) as [[| |n| | | |]|] eqn:Hd;
      try discriminate.
    injection Hc as ->. unfold save_users. rewrite save_json_eq. simpl.
    rewrite (stored_users_saved _ _ Hok), dict_lookup_set.
    eexists. split; [reflexivity|]. simpl. rewrite dict_lookup_set. reflexivity.
  - exists p. split; [|exact Hc].
    destruct (Py.dict_lookup (Py.str user_id) (stored_users w))
      as [[| | | | | |d]|]; simpl; rewrite ?Hsame; try exact Hl.
    destruct (Py.dict_lookup "translations_today" d) as [[| |n| | | |]|];
      simpl; rewrite ?Hsame; try exact Hl.
    unfold save_users. rewrite save_json_eq. simpl.
    rewrite (stored_users_saved _ _ Hok), dict_lookup_set_ne; auto.
Qed.

End SchedulerFacts.

(** * Further properties of the code *)

(** ** JSON helpers and accessors *)

(** X1. Round trip: after a save that goes through, loading the same path
    returns the saved value, logs nothing and leaves the world as it is. *)
Theorem save_then_load path data w :
  next_outcome w = WriteOk ->
  exists w1,
    save_json path data w = (Ok tt, w1) /\
    load_json path w1 = (Ok data, w1).
Proof.
  intros Hok. exists (save_world path data w).
  split; [apply save_json_eq|]. rewrite load_json_eq.
  assert (Hf : files (save_world path data w) !! path = Some (Holds data)).
  { rewrite (save_world_ok _ _ _ Hok). apply lookup_insert_eq. }
  unfold load_value. rewrite Hf. f_equal. eapply load_world_holds, Hf.
Qed.

Lemma save_then_load_witness :
  exists w1,
    save_json USERS_FILE (JObj [("7", new_profile (Some "ann"))]) empty_world
      = (Ok tt, w1) /\
    load_json USERS_FILE w1 = (Ok (JObj [("7", new_profile (Some "ann"))]), w1).
Proof.
  apply (save_then_load USERS_FILE (JObj [("7", new_profile (Some "ann"))])
           empty_world).
  reflexivity.
Defined.

(** X4. When [open] for writing is refused, the save returns normally and
    the file keeps what it held: a load gives the same value as before. *)
Theorem refused_open_keeps_content path data e w :
  next_outcome w = OpenFails e ->
  exists w1,
    save_json path data w = (Ok tt, w1) /\
    files w1 = files w /\
    fst (load_json path w1) = fst (load_json path w).
Proof.
  intros Hopen. exists (save_world path data w).
  split; [apply save_json_eq|].
  assert (Hf : files (save_world path data w) = files w)
    by (unfold save_world; rewrite Hopen; reflexivity).
  split; [exact Hf|]. rewrite !load_json_eq. simpl.
  f_equal. apply load_value_files, Hf.
Qed.

Lemma refused_open_keeps_content_witness :
  exists w1,
    save_json USERS_FILE (JObj []) open_refused = (Ok tt, w1) /\
    files w1 = files open_refused /\
    fst (load_json USERS_FILE w1) = fst (load_json USERS_FILE open_refused).
Proof.
  apply (refused_open_keeps_content USERS_FILE (JObj []) PermissionError open_refused).
  reflexivity.
Defined.

(** ** The user registry, further *)

Lemma stored_users_unreadable w :
  (forall d, files w !! USERS_FILE <> Some (Holds (JObj d))) ->
  stored_users w = [].
Proof.
  intros Hno. unfold stored_users, load_value.
  destruct (files w !! USERS_FILE) as [[v|e]|]; try reflexivity.
  destruct v; try reflexivity. destruct (Hno kvs). reflexivity.
Qed.

Lemma save_world_gets path data w :
  gets_of (trace (save_world path data w)) = gets_of (trace w).
Proof.
  unfold save_world. destruct (next_outcome w); simpl;
    rewrite !gets_of_app; simpl; rewrite ?app_nil_r; reflexivity.
Qed.

Lemma save_world_faults path data w :
  faults (save_world path data w) = tail (faults w).
Proof. unfold save_world. destruct (next_outcome w); reflexivity. Qed.

(** A new identifier with a write that goes through, in closed form. *)
Lemma ensure_user_new_eq user_id username w :
  Py.dict_contains (Py.str user_id) (stored_users w) = false ->
  next_outcome w = WriteOk ->
  exists w',
    ensure_user user_id username w = (Ok (new_profile username), w') /\
    stored_users w' =
      Py.dict_set (Py.str user_id) (new_profile username) (stored_users w) /\
    files w' = <[USERS_FILE :=
                   Holds (JObj (Py.dict_set (Py.str user_id) (new_profile username)
                                            (stored_users w)))]> (files w) /\
    faults w' = tail (faults w).
Proof.
  intros Hnew Hok. rewrite ensure_user_eq. cbv zeta. rewrite Hnew.
  eexists. split; [|split; [|split]].
  - unfold Py.getitem_str. rewrite dict_lookup_set. reflexivity.
  - apply SchedulerFacts.stored_users_saved, Hok.
  - rewrite save_world_ok by (rewrite next_outcome_load; exact Hok).
    rewrite load_world_files. reflexivity.
  - rewrite save_world_faults, load_world_faults. reflexivity.
Qed.

(** X6. When the users file does not hold a JSON object (it is corrupt, or
    holds valid JSON of another type), [ensure_user] takes the collection
    for empty and its save replaces whatever the file held by a collection
    with the new profile alone. *)
Theorem ensure_user_replaces_unreadable_collection user_id username w :
  (forall d, files w !! USERS_FILE <> Some (Holds (JObj d))) ->
  next_outcome w = WriteOk ->
  exists w',
    ensure_user user_id username w = (Ok (new_profile username), w') /\
    files w' !! USERS_FILE
    = Some (Holds (JObj [(Py.str user_id, new_profile username)])).
Proof.
  intros Hno Hok. pose proof (stored_users_unreadable w Hno) as Hnil.
  destruct (ensure_user_new_eq user_id username w) as (w' & Hrun & _ & Hf & _).
  { rewrite Hnil. reflexivity. }
  { exact Hok. }
  exists w'. split; [exact Hrun|].
  rewrite Hf, Hnil, lookup_insert_eq. reflexivity.
Qed.

Lemma ensure_user_replaces_unreadable_collection_witness :
  files mistyped_files !! USERS_FILE = Some (Holds (JList [JInt 1])) /\
  exists w',
    ensure_user 42 None mistyped_files = (Ok (new_profile None), w') /\
    files w' !! USERS_FILE = Some (Holds (JObj [("42", new_profile None)])).
Proof.
  split; [reflexivity|].
  apply (ensure_user_replaces_unreadable_collection 42 None mistyped_files).
  - intros d Hd. vm_compute in Hd. discriminate Hd.
  - reflexivity.
Defined.

(** X7. Distinct identifiers never collide: after [ensure_user a], a call
    for a different identifier [b] that is not stored returns a fresh
    default profile and appends it, and the profile returned for [a] is
    still stored under [a]. *)
Theorem ensure_user_keeps_ids_apart a b hint_a hint_b w :
  a <> b ->
  faults w = [] ->
  Py.dict_contains (Py.str b) (stored_users w) = false ->
  exists pa w1 w2,
    ensure_user a hint_a w = (Ok pa, w1) /\
    ensure_user b hint_b w1 = (Ok (new_profile hint_b), w2) /\
    Py.dict_lookup (Py.str a) (stored_users w2) = Some pa /\
    Py.dict_lookup (Py.str b) (stored_users w2) = Some (new_profile hint_b).
Proof.
  intros Hab Hfl Hb.
  assert (Hstr : Py.str b <> Py.str a).
  { unfold Py.str. intros Heq. apply (inj pretty) in Heq. congruence. }
  assert (Hok : next_outcome w = WriteOk) by (unfold next_outcome; rewrite Hfl; reflexivity).
  assert (Hstep : exists pa w1,
            ensure_user a hint_a w = (Ok pa, w1) /\
            Py.dict_lookup (Py.str a) (stored_users w1) = Some pa /\
            Py.dict_contains (Py.str b) (stored_users w1) = false /\
            next_outcome w1 = WriteOk).
  { destruct (Py.dict_contains (Py.str a) (stored_users w)) eqn:Ha.
    - apply dict_contains_lookup in Ha as [pa Hpa]. exists pa, w.
      rewrite (ensure_user_present _ _ _ _ Hpa). auto.
    - destruct (ensure_user_new_eq a hint_a w Ha Hok) as (w1 & Hrun & Hst & _ & Hfl1).
      exists (new_profile hint_a), w1. split; [exact Hrun|].
      rewrite Hst. split; [apply dict_lookup_set|]. split.
      + apply dict_contains_false. rewrite dict_lookup_set_ne by congruence.
        apply dict_contains_false, Hb.
      + unfold next_outcome. rewrite Hfl1, Hfl. reflexivity. }
  destruct Hstep as (pa & w1 & Hrun1 & Hpa & Hb1 & Hok1).
  destruct (ensure_user_new_eq b hint_b w1 Hb1 Hok1) as (w2 & Hrun2 & Hst2 & _ & _).
  exists pa, w1, w2. split; [exact Hrun1|]. split; [exact Hrun2|].
  rewrite Hst2. split; [|apply dict_lookup_set].
  rewrite dict_lookup_set_ne by exact Hstr. exact Hpa.
Qed.

Lemma ensure_user_keeps_ids_apart_witness :
  exists pa w1 w2,
    ensure_user 1 (Some "ann") empty_world = (Ok pa, w1) /\
    ensure_user 11 None w1 = (Ok (new_profile None), w2) /\
    Py.dict_lookup "1" (stored_users w2) = Some pa /\
    Py.dict_lookup "11" (stored_users w2) = Some (new_profile None).
Proof.
  apply (ensure_user_keeps_ids_apart 1 11 (Some "ann") None empty_world).
  - discriminate.
  - reflexivity.
  - reflexivity.
Defined.

(** ** Enrichment, further *)

(** X9. [fetch_word_info] never raises, sends exactly one request, and
    neither changes a file nor attempts a save. *)
Theorem fetch_word_info_is_contained E word dest w :
  exists r evs,
    fetch_word_info E word dest w
    = (Ok r, World (files w) (faults w) (trace w ++ evs)) /\
    writes_of evs = [] /\ gets_of evs = [entry_url word].
Proof.
  unfold fetch_word_info, try_except, bind, session_get.
  destruct (http_get E (length (gets_of (trace w))) (entry_url word))
    as [e|status [data|e]]; simpl.
  - exists None, [HttpGet (entry_url word); LogFetchError word e].
    rewrite <- app_assoc. auto.
  - destruct (status =? 200).
    + rewrite enrich_eq. simpl. eexists _, [HttpGet (entry_url word)]. auto.
    + exists None, [HttpGet (entry_url word)]. auto.
  - destruct (status =? 200); simpl.
    + exists None, [HttpGet (entry_url word); LogFetchError word e].
      rewrite <- app_assoc. auto.
    + exists None, [HttpGet (entry_url word)]. auto.
Qed.

(** X10. A response with a status other than 200 is dropped in silence by
    both enrichment paths, whatever its body: [fetch_word_info] returns
    [None] and the loop of [ensure_words] leaves its batch as it was, and
    neither writes a log entry. *)
Theorem other_status_is_dropped_silently E word dest new_added w status body :
  http_get E (length (gets_of (trace w))) (entry_url word) = Response status body ->
  status <> 200 ->
  let w' := World (files w) (faults w) (trace w ++ [HttpGet (entry_url word)]) in
  fetch_word_info E word dest w = (Ok None, w') /\
  attempt E word new_added w = (Ok new_added, w').
Proof.
  intros Hresp Hst w'. apply Z.eqb_neq in Hst.
  unfold fetch_word_info, attempt, try_except, bind, session_get.
  rewrite Hresp. simpl. rewrite Hst. simpl. auto.
Qed.

Lemma other_status_is_dropped_silently_witness :
  fetch_word_info not_found_env "zzz" "ru" empty_world
    = (Ok None, World ∅ [] [HttpGet (entry_url "zzz")]) /\
  attempt not_found_env "zzz" [] empty_world
    = (Ok [], World ∅ [] [HttpGet (entry_url "zzz")]).
Proof.
  apply (other_status_is_dropped_silently not_found_env "zzz" "ru" [] empty_world
           404 (Ok (JObj [("title", JStr "No Definitions Found")]))).
  - reflexivity.
  - discriminate.
Defined.

(** X11. The enrichment written out in the loop of [ensure_words] agrees
    with [fetch_word_info] for the target language ["ru"]: started in the
    same world, the loop appends exactly the item [fetch_word_info]
    returns, and appends nothing when it returns [None]. *)
Theorem loop_enrichment_agrees_with_fetch_word_info E word new_added w :
  exists r w1 w2,
    fetch_word_info E word "ru" w = (Ok r, w1) /\
    attempt E word new_added w = (Ok (new_added ++ option_list r), w2).
Proof.
  destruct (fetch_word_info_eq E word "ru" w) as (w1 & _ & Hf).
  destruct (attempt_eq E word new_added w) as (evs & _ & _ & Ha).
  eexists _, w1, _. split; [exact Hf|]. rewrite Ha.
  destruct (enrichment_ok E (length (gets_of (trace w))) word); simpl;
    rewrite ?app_nil_r; reflexivity.
Qed.

(** X12. On a response of the documented shape (a list whose first entry
    has a list ["meanings"], whose first element has a list
    ["definitions"], whose first element is an object), the lookup yields
    that object's ["definition"], and the empty string when the object has
    no such key. *)
Theorem lookup_definition_well_formed entry rest meaning ms sense ss :
  Py.dict_lookup "meanings" entry = Some (JList (JObj meaning :: ms)) ->
  Py.dict_lookup "definitions" meaning = Some (JList (JObj sense :: ss)) ->
  lookup_definition (JList (JObj entry :: rest))
  = Ok (default (JStr "") (Py.dict_lookup "definition" sense)).
Proof.
  intros Hm Hd. unfold lookup_definition. simpl. rewrite Hm. simpl.
  rewrite Hd. reflexivity.
Qed.

Lemma lookup_definition_well_formed_witness :
  lookup_definition sample_response = Ok (JStr "A common, round fruit").
Proof.
  exact (lookup_definition_well_formed
           sample_entry [] sample_meaning [] sample_sense [] eq_refl eq_refl).
Defined.

(** X13. Whenever the body is not a non-empty list (an object such as an
    error report, a string, a number, [null], the empty list), the
    definition stored is the empty string. *)
Theorem definition_of_non_list data :
  (forall x l, data <> JList (x :: l)) ->
  definition_of data = JStr "".
Proof.
  intros Hno. unfold definition_of, lookup_definition.
  destruct data as [| | | |s|l|d]; try reflexivity.
  - destruct s as [|c s]; reflexivity.
  - destruct l as [|x l]; [reflexivity|]. destruct (Hno x l). reflexivity.
Qed.

Lemma definition_of_non_list_witness :
  definition_of (JObj [("title", JStr "No Definitions Found")]) = JStr "".
Proof.
  apply (definition_of_non_list (JObj [("title", JStr "No Definitions Found")])).
  discriminate.
Defined.

(** ** The corpus manager, further *)

Lemma getitem_word_keyless item :
  word_key item = None ->
  exists e, Py.getitem_str item "word" = Raise e /\ (e = KeyError \/ e = TypeError).
Proof.
  unfold word_key, Py.getitem_str. destruct item; intros H; eauto.
  rewrite H. eauto.
Qed.

(** The scan stops at a match that comes before a keyless item, and raises
    at the keyless item when nothing before it matches. *)
Lemma any_word_eq_keyless pre item post c :
  Forall (fun it => is_Some (word_key it)) pre ->
  word_key item = None ->
  if has_word pre c
  then any_word_eq (pre ++ item :: post) c = Ok true
  else exists e, any_word_eq (pre ++ item :: post) c = Raise e /\
                 (e = KeyError \/ e = TypeError).
Proof.
  intros Hpre Hitem. induction Hpre as [|it pre [k Hk] _ IH]; simpl.
  - destruct (getitem_word_keyless item Hitem) as (e & -> & He). simpl. eauto.
  - rewrite Hk. destruct it; try discriminate. simpl in Hk |- *. rewrite Hk. simpl.
    destruct (Py.eq_str k c); simpl; [reflexivity | exact IH].
Qed.

Lemma for_candidates_keyless E needed pre item post cands wd c0 :
  Forall (fun it => is_Some (word_key it)) pre ->
  word_key item = None ->
  0 < needed ->
  c0 ∈ cands -> has_word pre c0 = false ->
  exists e,
    for_candidates E needed (pre ++ item :: post) cands [] wd = (Raise e, wd) /\
    (e = KeyError \/ e = TypeError).
Proof.
  intros Hpre Hitem Hneed Hin Hc0.
  induction cands as [|c rest IH]; [exfalso; eapply not_elem_of_nil, Hin|].
  assert (Hcap : (Z.of_nat (length (@nil json)) >=? needed) = false).
  { simpl. rewrite Z.geb_leb. apply Z.leb_gt. lia. }
  cbn [for_candidates]. rewrite Hcap.
  unfold bind at 1. unfold lift.
  pose proof (any_word_eq_keyless pre item post c Hpre Hitem) as Hscan.
  destruct (has_word pre c) eqn:Hc.
  - rewrite Hscan. simpl. apply IH.
    apply elem_of_cons in Hin as [->|Hin]; [congruence | exact Hin].
  - destruct Hscan as (e & -> & He). simpl. eauto.
Qed.

(** X14. A stored item without ["word"] makes [ensure_words] raise: when
    the items before it all carry a key and some seed word is not among
    them, a run below the minimum ends in a [KeyError] or [TypeError]
    before any request is sent, and nothing is saved. *)
Theorem ensure_words_raises_on_keyless_item E min_total w pre item post c0 :
  stored_words w = pre ++ item :: post ->
  Forall (fun it => is_Some (word_key it)) pre ->
  word_key item = None ->
  c0 ∈ SAMPLE_WORDS_POOL -> has_word pre c0 = false ->
  (forall l, shuffle E l ≡ₚ l) ->
  Z.of_nat (length (stored_words w)) < min_total ->
  exists e w',
    ensure_words E min_total w = (Raise e, w') /\
    (e = KeyError \/ e = TypeError) /\
    files w' = files w /\
    writes_of (trace w') = writes_of (trace w) /\
    gets_of (trace w') = gets_of (trace w).
Proof.
  intros Hw Hpre Hitem Hc0 Hmiss Hp Hlt.
  pose proof (needed_for_ge min_total (stored_words w)) as Hneed.
  destruct (for_candidates_keyless E (needed_for min_total (stored_words w))
              pre item post
              (candidates_for E (needed_for min_total (stored_words w)))
              (loop_entry w) c0 Hpre Hitem) as (e & Hrun & He); auto; [lia | |].
  { apply pool_in_candidates; auto. }
  exists e, (loop_entry w). rewrite ensure_words_eq. cbv zeta.
  destruct (_ >=? min_total) eqn:Hge; [apply geb_true in Hge; lia|].
  rewrite Hw at 2. rewrite Hrun.
  split; [reflexivity|]. split; [exact He|].
  unfold loop_entry. simpl.
  rewrite writes_of_app, gets_of_app, load_world_writes, load_world_gets.
  simpl. rewrite !app_nil_r. split; [apply load_world_files | auto].
Qed.

Lemma ensure_words_raises_on_keyless_item_witness :
  exists e w',
    ensure_words bare_env 200 keyless_item_stored = (Raise e, w') /\
    (e = KeyError \/ e = TypeError) /\
    files w' = files keyless_item_stored /\
    writes_of (trace w') = writes_of (trace keyless_item_stored) /\
    gets_of (trace w') = gets_of (trace keyless_item_stored).
Proof.
  apply (ensure_words_raises_on_keyless_item bare_env 200 keyless_item_stored
           [make_item "apple" "" (JStr "")]
           (JObj [("translation", JStr "kniga")])
           [make_item "water" "" (JStr "")] "book").
  - reflexivity.
  - repeat constructor. eexists. reflexivity.
  - reflexivity.
  - vm_compute. apply list_elem_of_further, list_elem_of_here.
  - reflexivity.
  - intros l. reflexivity.
  - vm_compute. reflexivity.
Defined.

(** Requests of the loop: one per candidate it tries, in candidate order,
    and only for candidates that are not keyed in [words]. *)
Lemma for_candidates_requests E needed words cands : forall acc wd,
  exists r evs rs,
    for_candidates E needed words cands acc wd
    = (r, World (files wd) (faults wd) (trace wd ++ evs)) /\
    gets_of evs = entry_url <$> rs /\
    rs `sublist_of` cands /\
    Forall (fun c => has_word words c = false) rs.
Proof.
  induction cands as [|c rest IH]; intros acc wd.
  - exists (Ok acc), [], []. rewrite world_eta. repeat split; constructor.
  - simpl. destruct (Z.of_nat (length acc) >=? needed).
    { exists (Ok acc), [], []. rewrite world_eta.
      repeat split; auto using sublist_nil_l. }
    unfold bind at 1. unfold lift.
    destruct (any_word_eq words c) as [[|]|e] eqn:H1; simpl.
    + destruct (IH acc wd) as (r & evs & rs & Hrun & Hg & Hs & Hall).
      exists r, evs, rs. repeat split; auto using sublist_cons.
    + destruct (any_word_eq acc c) as [[|]|e] eqn:H2; simpl.
      * destruct (IH acc wd) as (r & evs & rs & Hrun & Hg & Hs & Hall).
        exists r, evs, rs. repeat split; auto using sublist_cons.
      * apply any_word_eq_ok in H1.
        destruct (attempt_eq E c acc wd) as (evs1 & _ & Hg1 & Hat).
        unfold bind. rewrite Hat.
        match goal with |- context [for_candidates _ _ _ _ ?a ?w] =>
          destruct (IH a w) as (r & evs & rs & Hrun & Hg & Hs & Hall) end.
        simpl in Hrun. rewrite <- app_assoc in Hrun.
        exists r, (evs1 ++ evs), (c :: rs). split; [exact Hrun|].
        split; [rewrite gets_of_app, Hg1, Hg; reflexivity|].
        split; [apply sublist_skip, Hs | constructor; assumption].
      * exists (Raise e), [], []. rewrite world_eta.
        repeat split; auto using sublist_nil_l.
    + exists (Raise e), [], []. rewrite world_eta.
      repeat split; auto using sublist_nil_l.
Qed.

Lemma saved_gets words' n w : gets_of (trace (saved words' n w)) = gets_of (trace w).
Proof.
  unfold saved. simpl. rewrite gets_of_app, save_world_gets. simpl.
  apply app_nil_r.
Qed.

Lemma list_mul_length {A} (l : list A) k :
  length (Py.list_mul l k) = (Z.to_nat k * length l)%nat.
Proof.
  unfold Py.list_mul. induction (Z.to_nat k) as [|n IH]; [reflexivity|].
  simpl. rewrite length_app, IH. reflexivity.
Qed.

(** X15. The requests one call of [ensure_words] sends are requests for
    candidates of its shuffled list, at most one per occurrence and in
    their order, and never for a word that is already stored; so a call
    sends at most [30 * (needed // 30 + 2)] requests. *)
Theorem ensure_words_requests_only_missing_candidates E min_total w :
  let needed := needed_for min_total (stored_words w) in
  exists rs,
    call_requests E min_total w = entry_url <$> rs /\
    rs `sublist_of` candidates_for E needed /\
    Forall (fun c => has_word (stored_words w) c = false) rs /\
    ((forall l, shuffle E l ≡ₚ l) ->
     (length (call_requests E min_total w) <= 30 * Z.to_nat (needed / 30 + 2))%nat).
Proof.
  intros needed.
  assert (Hbound : forall rs,
            call_requests E min_total w = entry_url <$> rs ->
            rs `sublist_of` candidates_for E needed ->
            (forall l, shuffle E l ≡ₚ l) ->
            (length (call_requests E min_total w)
             <= 30 * Z.to_nat (needed / 30 + 2))%nat).
  { intros rs -> Hs Hp. rewrite length_fmap.
    apply sublist_length in Hs. unfold candidates_for in Hs.
    rewrite Hp, list_mul_length, pool_length in Hs.
    change (Z.of_nat 30) with 30 in Hs. lia. }
  unfold call_requests in *. rewrite ensure_words_eq in *. cbv zeta in *.
  fold needed in Hbound |- *.
  destruct (_ >=? min_total).
  - exists []. cbn [snd] in *. rewrite load_world_gets, drop_all in *.
    repeat split; auto using sublist_nil_l.
    apply (Hbound []); auto using sublist_nil_l.
  - destruct (for_candidates_requests E needed (stored_words w)
                (candidates_for E needed) [] (loop_entry w))
      as (r & evs & rs & Hrun & Hg & Hs & Hall).
    rewrite Hrun in *. exists rs.
    set (w3 := World (files (loop_entry w)) (faults (loop_entry w))
                     (trace (loop_entry w) ++ evs)) in *.
    assert (Hgets : gets_of (trace w3) = gets_of (trace w) ++ (entry_url <$> rs)).
    { unfold w3, loop_entry. simpl. rewrite !gets_of_app, load_world_gets, Hg.
      simpl. rewrite app_nil_r. reflexivity. }
    assert (Hreq : drop (length (gets_of (trace w)))
                     (gets_of (trace (snd (match r with
                        | Ok [] => (Ok tt, w3)
                        | Ok (x :: l) =>
                            (Ok tt, saved (stored_words w ++ x :: l)
                                          (length (x :: l)) w3)
                        | Raise e => (Raise e, w3)
                        end))))
                   = entry_url <$> rs).
    { destruct r as [[|x l]|e]; cbn [snd]; rewrite ?saved_gets, Hgets;
        apply drop_app_length. }
    split; [exact Hreq|]. split; [exact Hs|]. split; [exact Hall|].
    intros Hp. apply (Hbound rs); assumption.
Qed.

(** A run below the minimum against a steady dictionary service, in closed
    form. *)
Lemma ensure_words_steady_run E min_total w :
  let words := stored_words w in
  steady E ->
  (forall l, shuffle E l ≡ₚ l) ->
  Forall (fun item => is_Some (word_key item)) words ->
  Z.of_nat (length words) < min_total ->
  exists added ws w3,
    ensure_words E min_total w =
      (Ok tt, match added with
              | [] => w3
              | _ :: _ => saved (words ++ added) (length added) w3
              end) /\
    files w3 = files w /\ faults w3 = faults w /\
    writes_of (trace w3) = writes_of (trace w) /\
    Forall2 item_of added ws /\ NoDup ws /\
    (forall c, c ∈ ws <->
       c ∈ SAMPLE_WORDS_POOL /\ has_word words c = false /\
       enrichment_ok E 0 c = true).
Proof.
  intros words Hst Hp Hk Hlt.
  pose proof (needed_for_ge min_total words) as Hneed.
  set (needed := needed_for min_total words) in *.
  destruct (for_candidates_complete E needed words (candidates_for E needed)
              Hst Hk ltac:(lia) [] [] (loop_entry w))
    as (added & ws & wd' & Hrun & Hi & Hn & Hiff).
  { constructor. } { constructor. }
  { intros c Hc. exfalso. eapply not_elem_of_nil, Hc. }
  { intros c. apply candidates_in_pool, Hp. }
  destruct (for_candidates_sound E needed words (candidates_for E needed)
              [] (loop_entry w)) as (r & evs & Hrun2 & Hw & _).
  rewrite Hrun in Hrun2. injection Hrun2 as _ Hwd.
  exists added, ws, wd'. split.
  { rewrite ensure_words_eq. cbv zeta. fold words. fold needed.
    destruct (Z.of_nat (length words) >=? min_total) eqn:Hge;
      [apply geb_true in Hge; lia|].
    rewrite Hrun. destruct added; reflexivity. }
  split; [rewrite Hwd; apply load_world_files|].
  split; [rewrite Hwd; apply load_world_faults|].
  split.
  { rewrite Hwd. unfold loop_entry. simpl.
    rewrite !writes_of_app, Hw, load_world_writes. simpl.
    rewrite !app_nil_r. reflexivity. }
  split; [exact Hi|]. split; [exact Hn|].
  intros c. rewrite Hiff, elem_of_nil. split.
  - intros [[]|(Hc & ? & ?)]. split; [eapply candidates_in_pool; eauto | auto].
  - intros (Hc & ? & ?). right. split; [apply pool_in_candidates; auto | auto].
Qed.

(** What the store holds after such a run when the write goes through. *)
Lemma stored_words_after_run words added w3 :
  stored_words w3 = words ->
  next_outcome w3 = WriteOk ->
  stored_words (match added with
                | [] => w3
                | _ :: _ => saved (words ++ added) (length added) w3
                end) = words ++ added.
Proof.
  intros Hw Hok. destruct added as [|x l].
  - rewrite app_nil_r. exact Hw.
  - rewrite stored_words_saved, Hok. reflexivity.
Qed.

(** X16. With a steady dictionary service and a write that goes through,
    a run below the minimum stores every seed word whose request
    succeeds. *)
Theorem successful_seed_words_get_stored E min_total w c :
  steady E ->
  (forall l, shuffle E l ≡ₚ l) ->
  Forall (fun item => is_Some (word_key item)) (stored_words w) ->
  Z.of_nat (length (stored_words w)) < min_total ->
  next_outcome w = WriteOk ->
  c ∈ SAMPLE_WORDS_POOL -> enrichment_ok E 0 c = true ->
  has_word (stored_words (snd (ensure_words E min_total w))) c = true.
Proof.
  intros Hst Hp Hk Hlt Hok Hc Hgood.
  destruct (ensure_words_steady_run E min_total w Hst Hp Hk Hlt)
    as (added & ws & w3 & Hrun & Hf & Hfl & _ & Hi & _ & Hiff).
  rewrite Hrun. cbn [snd]. rewrite stored_words_after_run.
  - rewrite has_word_app. destruct (has_word (stored_words w) c) eqn:Hw;
      [reflexivity|]. simpl.
    apply (has_word_items _ _ _ Hi), Hiff. auto.
  - apply stored_words_files, Hf.
  - unfold next_outcome in *. rewrite Hfl. exact Hok.
Qed.

Lemma successful_seed_words_get_stored_witness :
  has_word (stored_words (snd (ensure_words two_fail_env 200 twenty_stored)))
           "music" = true.
Proof.
  apply (successful_seed_words_get_stored two_fail_env 200 twenty_stored "music").
  - exact two_fail_env_steady.
  - intros l. apply reverse_Permutation.
  - exact twenty_stored_keyed.
  - vm_compute. reflexivity.
  - reflexivity.
  - vm_compute. do 8 apply list_elem_of_further. apply list_elem_of_here.
  - vm_compute. reflexivity.
Defined.

(** X17. Replenishment settles: with a steady dictionary service and a
    write that goes through, a second call of [ensure_words] with the same
    or a lower minimum changes no file and attempts no save, since every
    seed word it could add was added by the first. *)
Theorem ensure_words_settles E min1 min2 w :
  steady E ->
  (forall l, shuffle E l ≡ₚ l) ->
  Forall (fun item => is_Some (word_key item)) (stored_words w) ->
  next_outcome w = WriteOk ->
  min2 <= min1 ->
  let w1 := snd (ensure_words E min1 w) in
  let w2 := snd (ensure_words E min2 w1) in
  files w2 = files w1 /\ writes_of (trace w2) = writes_of (trace w1).
Proof.
  intros Hst Hp Hk Hok Hmin w1 w2.
  assert (Hw1 : Forall (fun item => is_Some (word_key item)) (stored_words w1) /\
                (Z.of_nat (length (stored_words w1)) < min2 ->
                 forall c, c ∈ SAMPLE_WORDS_POOL -> enrichment_ok E 0 c = true ->
                           has_word (stored_words w1) c = true)).
  { destruct (Z.of_nat (length (stored_words w)) >=? min1) eqn:Hge.
    - apply geb_true in Hge. unfold w1.
      rewrite (ensure_words_large_eq _ _ _ Hge). cbn [snd].
      rewrite (stored_words_files w) by apply load_world_files.
      split; [exact Hk | lia].
    - apply geb_false in Hge. split.
      + destruct (ensure_words_steady_run E min1 w Hst Hp Hk Hge)
          as (added & ws & w3 & Hrun & Hf & Hfl & _ & Hi & _ & _).
        unfold w1. rewrite Hrun. cbn [snd]. rewrite stored_words_after_run.
        * apply Forall_app. split; [exact Hk | eapply items_keyed, Hi].
        * apply stored_words_files, Hf.
        * unfold next_outcome in *. rewrite Hfl. exact Hok.
      + intros _ c Hc Hgood. unfold w1.
        destruct (ensure_words_steady_run E min1 w Hst Hp Hk Hge)
          as (added & ws & w3 & Hrun & Hf & Hfl & _ & Hi & _ & Hiff).
        rewrite Hrun. cbn [snd]. rewrite stored_words_after_run.
        * rewrite has_word_app. destruct (has_word (stored_words w) c) eqn:Hw;
            [reflexivity|]. simpl.
          apply (has_word_items _ _ _ Hi), Hiff. auto.
        * apply stored_words_files, Hf.
        * unfold next_outcome in *. rewrite Hfl. exact Hok. }
  destruct Hw1 as [Hk1 Hfull].
  destruct (Z.of_nat (length (stored_words w1)) >=? min2) eqn:Hge2.
  - apply geb_true in Hge2. unfold w2.
    rewrite (ensure_words_large_eq _ _ _ Hge2). cbn [snd].
    split; [apply load_world_files | apply load_world_writes].
  - apply geb_false in Hge2.
    destruct (ensure_words_steady_run E min2 w1 Hst Hp Hk1 Hge2)
      as (added & ws & w3 & Hrun & Hf & _ & Hwr & Hi & _ & Hiff).
    assert (Hws : ws = []).
    { destruct ws as [|c ws]; [reflexivity|]. exfalso.
      destruct (proj1 (Hiff c) (list_elem_of_here _ _)) as (Hc & Hmiss & Hgood).
      rewrite (Hfull Hge2 c Hc Hgood) in Hmiss. discriminate. }
    subst ws. apply Forall2_nil_inv_r in Hi. subst added.
    unfold w2. rewrite Hrun. cbn [snd]. auto.
Qed.

Lemma ensure_words_settles_witness :
  files (snd (ensure_words two_fail_env 200
                (snd (ensure_words two_fail_env 200 twenty_stored))))
    = files (snd (ensure_words two_fail_env 200 twenty_stored)) /\
  writes_of (trace (snd (ensure_words two_fail_env 200
                (snd (ensure_words two_fail_env 200 twenty_stored)))))
    = writes_of (trace (snd (ensure_words two_fail_env 200 twenty_stored))).
Proof.
  apply (ensure_words_settles two_fail_env 200 200 twenty_stored).
  - exact two_fail_env_steady.
  - intros l. apply reverse_Permutation.
  - exact twenty_stored_keyed.
  - reflexivity.
  - reflexivity.
Defined.

(** X19. Stored items are never removed, changed or reordered: unless the
    dump breaks off midway, the corpus before a call of [ensure_words] is
    a prefix of the corpus after it. *)
Theorem ensure_words_only_appends E min_total w :
  (forall e, next_outcome w <> DumpFails e) ->
  stored_words w `prefix_of` stored_words (snd (ensure_words E min_total w)).
Proof.
  intros Hno.
  destruct (Z.of_nat (length (stored_words w)) >=? min_total) eqn:Hge.
  - apply geb_true in Hge. rewrite (ensure_words_large_eq _ _ _ Hge).
    cbn [snd].
    rewrite (stored_words_files w (load_world WORDS_FILE w))
      by apply load_world_files.
    reflexivity.
  - apply geb_false in Hge.
    destruct (ensure_words_run E min_total w Hge)
      as (r & added & w3 & w' & Hrun & _ & Hf & Hfl & _ & Hend).
    rewrite Hrun. cbn [snd]. destruct added as [|x l].
    + subst w'. rewrite (stored_words_files w w3) by exact Hf. reflexivity.
    + destruct Hend as [_ ->]. rewrite stored_words_saved.
      assert (Hout : next_outcome w3 = next_outcome w)
        by (unfold next_outcome; rewrite Hfl; reflexivity).
      rewrite Hout. destruct (next_outcome w) as [|e|e] eqn:Ho.
      * apply prefix_app_r. reflexivity.
      * rewrite (stored_words_files w w3) by exact Hf. reflexivity.
      * destruct (Hno e). reflexivity.
Qed.

Lemma ensure_words_only_appends_witness :
  stored_words twenty_stored
  `prefix_of` stored_words (snd (ensure_words flaky_env 200 twenty_stored)).
Proof.
  apply (ensure_words_only_appends flaky_env 200 twenty_stored).
  intros e He. discriminate He.
Defined.

Lemma stored_words_unreadable w :
  (forall l, files w !! WORDS_FILE <> Some (Holds (JList l))) ->
  stored_words w = [].
Proof.
  intros Hno. unfold stored_words, load_value.
  destruct (files w !! WORDS_FILE) as [[v|e]|]; try reflexivity.
  destruct v; try reflexivity. destruct (Hno l). reflexivity.
Qed.

(** ** The run of the loop, request by request *)

Lemma occurrences_cons c x l :
  occurrences c (x :: l) = ((if decide (x = c) then 1 else 0) + occurrences c l)%nat.
Proof.
  unfold occurrences. rewrite filter_cons. destruct (decide (x = c)); reflexivity.
Qed.

Lemma occurrences_app c l1 l2 :
  occurrences c (l1 ++ l2) = (occurrences c l1 + occurrences c l2)%nat.
Proof. unfold occurrences. rewrite filter_app, length_app. reflexivity. Qed.

Lemma occurrences_not_in c l : c ∉ l -> occurrences c l = 0%nat.
Proof.
  induction l as [|x l IH]; intros Hc; [reflexivity|].
  rewrite occurrences_cons. apply not_elem_of_cons in Hc as [Hne Hc].
  destruct (decide (x = c)); [congruence | auto].
Qed.

Lemma occurrences_NoDup c l : NoDup l -> c ∈ l -> occurrences c l = 1%nat.
Proof.
  induction 1 as [|x l Hx Hnd IH]; intros Hc; [exfalso; eapply not_elem_of_nil, Hc|].
  rewrite occurrences_cons. destruct (decide (x = c)) as [->|Hne].
  - rewrite occurrences_not_in by exact Hx. reflexivity.
  - apply elem_of_cons in Hc as [->|Hc]; [congruence | auto].
Qed.

Lemma occurrences_list_mul c l k :
  occurrences c (Py.list_mul l k) = (Z.to_nat k * occurrences c l)%nat.
Proof.
  unfold Py.list_mul. induction (Z.to_nat k) as [|n IH]; [reflexivity|].
  simpl. rewrite occurrences_app, IH. reflexivity.
Qed.

(** Every seed word occurs [needed // 30 + 2] times among the candidates. *)
Lemma candidates_occurrences E needed c :
  (forall l, shuffle E l ≡ₚ l) ->
  c ∈ SAMPLE_WORDS_POOL ->
  occurrences c (candidates_for E needed) = Z.to_nat (needed / 30 + 2).
Proof.
  intros Hp Hc. unfold candidates_for, occurrences.
  rewrite (Hp _). fold (occurrences c (Py.list_mul SAMPLE_WORDS_POOL
    (needed / Z.of_nat (length SAMPLE_WORDS_POOL) + 2))).
  rewrite occurrences_list_mul, (occurrences_NoDup _ _ pool_NoDup Hc).
  rewrite pool_length. change (Z.of_nat 30) with 30. lia.
Qed.

Section LoopRun.
Context (E : env) (words : list json).

Lemma loop_run_done_mono n d cands rs d' c :
  loop_run E words n d cands rs d' -> c ∈ d -> c ∈ d'.
Proof.
  induction 1 as [| | n d x rest rs d' _ _ _ _ IH |]; auto.
  intros Hc. apply IH, elem_of_app. auto.
Qed.

Lemma loop_run_requests n d cands rs d' c :
  loop_run E words n d cands rs d' ->
  c ∈ rs -> c ∈ cands /\ has_word words c = false /\ c ∉ d.
Proof.
  induction 1 as [| n d x rest rs d' _ _ IH
                  | n d x rest rs d' Hw Hd _ _ IH
                  | n d x rest rs d' Hw Hd _ _ IH]; intros Hc.
  - exfalso. eapply not_elem_of_nil, Hc.
  - destruct (IH Hc) as (? & ? & ?). split; [apply list_elem_of_further|]; auto.
  - apply elem_of_cons in Hc as [->|Hc].
    + split; [apply list_elem_of_here | auto].
    + destruct (IH Hc) as (? & ? & Hnd).
      split; [apply list_elem_of_further; assumption|]. split; [assumption|].
      intros Hin. apply Hnd, elem_of_app. auto.
  - apply elem_of_cons in Hc as [->|Hc].
    + split; [apply list_elem_of_here | auto].
    + destruct (IH Hc) as (? & ? & ?). split; [apply list_elem_of_further|]; auto.
Qed.

Lemma loop_run_NoDup n d cands rs d' :
  loop_run E words n d cands rs d' -> NoDup d -> NoDup d'.
Proof.
  induction 1 as [| | n d x rest rs d' _ Hd _ _ IH |]; auto.
  intros Hnd. apply IH, NoDup_app. split; [exact Hnd|].
  split; [|apply NoDup_singleton].
  intros y Hy Hy'. apply list_elem_of_singleton in Hy'. congruence.
Qed.

(** A word is in the batch at the end exactly when it was there at the
    start or one of its requests succeeded. *)
Lemma loop_run_done_iff n d cands rs d' c :
  loop_run E words n d cands rs d' ->
  c ∈ d' <-> c ∈ d \/ exists i, rs !! i = Some c /\ enrichment_ok E (n + i) c = true.
Proof.
  induction 1 as [| n d x rest rs d' _ _ IH
                  | n d x rest rs d' _ _ Hok _ IH
                  | n d x rest rs d' _ _ Hok _ IH].
  - split; [auto|]. intros [?|(i & Hi & _)]; [assumption|]. destruct i; discriminate.
  - exact IH.
  - rewrite IH, elem_of_app, list_elem_of_singleton. split.
    + intros [[? | ->] | (i & Hi & Hs)]; [auto| |].
      * right. exists 0%nat. rewrite Nat.add_0_r. auto.
      * right. exists (S i). rewrite Nat.add_succ_r. auto.
    + intros [?|(i & Hi & Hs)]; [auto|]. destruct i as [|i].
      * injection Hi as ->. auto.
      * right. exists i. rewrite Nat.add_succ_r in Hs. auto.
  - rewrite IH. split.
    + intros [?|(i & Hi & Hs)]; [auto|].
      right. exists (S i). rewrite Nat.add_succ_r. auto.
    + intros [?|(i & Hi & Hs)]; [auto|]. destruct i as [|i].
      * injection Hi as ->. rewrite Nat.add_0_r in Hs. congruence.
      * right. exists i. rewrite Nat.add_succ_r in Hs. auto.
Qed.

(** After its request has succeeded a word is not requested again. *)
Lemma loop_run_success_last n d cands rs d' c i j :
  loop_run E words n d cands rs d' ->
  rs !! i = Some c -> enrichment_ok E (n + i) c = true ->
  rs !! j = Some c -> (j <= i)%nat.
Proof.
  intros Hrun. revert i j.
  induction Hrun as [| n d x rest rs d' _ _ IH
                     | n d x rest rs d' _ _ Hok Hrun IH
                     | n d x rest rs d' _ _ Hok Hrun IH]; intros i j Hi Hs Hj.
  - destruct i; discriminate.
  - eauto.
  - destruct j as [|j]; [lia|]. destruct i as [|i].
    + injection Hi as ->. simpl in Hj.
      assert (Hin : c ∈ rs) by (apply list_elem_of_lookup; eauto).
      destruct (loop_run_requests _ _ _ _ _ _ Hrun Hin) as (_ & _ & Hnd).
      destruct Hnd. apply elem_of_app. right. apply list_elem_of_here.
    + simpl in Hi, Hj. rewrite Nat.add_succ_r in Hs.
      pose proof (IH i j Hi Hs Hj). lia.
  - destruct j as [|j]; [lia|]. destruct i as [|i].
    + injection Hi as ->. rewrite Nat.add_0_r in Hs. congruence.
    + simpl in Hi, Hj. rewrite Nat.add_succ_r in Hs.
      pose proof (IH i j Hi Hs Hj). lia.
Qed.

(** A missing word that is not in the batch at the end was requested at
    every one of its occurrences among the candidates. *)
Lemma loop_run_every_occurrence n d cands rs d' c :
  loop_run E words n d cands rs d' ->
  has_word words c = false -> c ∉ d' ->
  occurrences c rs = occurrences c cands.
Proof.
  intros Hrun Hw. induction Hrun as [| n d x rest rs d' Hskip Hrun IH
                     | n d x rest rs d' _ _ _ Hrun IH
                     | n d x rest rs d' _ _ _ Hrun IH]; intros Hc.
  - reflexivity.
  - rewrite occurrences_cons. destruct (decide (x = c)) as [->|Hne]; [|auto].
    destruct Hskip as [Hs|Hs]; [congruence|].
    destruct Hc. eapply loop_run_done_mono; eauto.
  - rewrite !occurrences_cons. destruct (decide (x = c)) as [->|Hne].
    + destruct Hc. eapply loop_run_done_mono; [exact Hrun|].
      apply elem_of_app. right. apply list_elem_of_here.
    + simpl. auto.
  - rewrite !occurrences_cons. rewrite IH by exact Hc. reflexivity.
Qed.

End LoopRun.

(** The loop follows [loop_run]: with a corpus whose items all carry a
    key and a bound above the size of the pool it ends normally, having
    sent the requests [rs] and holding entries for the words [ws']. *)
Lemma for_candidates_loop_run E needed words cands :
  Forall (fun item => is_Some (word_key item)) words ->
  30 < needed ->
  forall acc ws0 wd,
    Forall2 item_of acc ws0 -> NoDup ws0 ->
    (forall c, c ∈ ws0 -> c ∈ SAMPLE_WORDS_POOL) ->
    (forall c, c ∈ cands -> c ∈ SAMPLE_WORDS_POOL) ->
    exists acc' ws' rs evs,
      for_candidates E needed words cands acc wd
      = (Ok acc', World (files wd) (faults wd) (trace wd ++ evs)) /\
      writes_of evs = [] /\ gets_of evs = entry_url <$> rs /\
      Forall2 item_of acc' ws' /\
      loop_run E words (length (gets_of (trace wd))) ws0 cands rs ws'.
Proof.
  intros Hk Hbig.
  induction cands as [|c rest IH]; intros acc ws0 wd Hi Hn Hsub Hcs.
  - exists acc, ws0, [], []. rewrite world_eta.
    repeat split; auto. constructor.
  - assert (Hrest : forall x, x ∈ rest -> x ∈ SAMPLE_WORDS_POOL)
      by (intros x Hx; apply Hcs, list_elem_of_further, Hx).
    simpl. destruct (Z.of_nat (length acc) >=? needed) eqn:Hcap.
    { apply geb_true in Hcap. pose proof (pool_sublist_length ws0 Hn Hsub).
      pose proof (Forall2_length _ _ _ Hi). lia. }
    unfold bind at 1. unfold lift. rewrite (any_word_eq_keyed _ _ Hk).
    destruct (has_word words c) eqn:Hw; simpl.
    { destruct (IH acc ws0 wd Hi Hn Hsub Hrest)
        as (acc' & ws' & rs & evs & Hrun & Hwr & Hg & Hi' & Hloop).
      exists acc', ws', rs, evs. repeat split; auto.
      apply run_continue; auto. }
    rewrite (any_word_eq_keyed _ _ (items_keyed _ _ Hi)).
    destruct (has_word acc c) eqn:Ha; simpl.
    { apply (has_word_items _ _ _ Hi) in Ha.
      destruct (IH acc ws0 wd Hi Hn Hsub Hrest)
        as (acc' & ws' & rs & evs & Hrun & Hwr & Hg & Hi' & Hloop).
      exists acc', ws', rs, evs. repeat split; auto.
      apply run_continue; auto. }
    assert (Hfresh : c ∉ ws0).
    { intros Hin. apply (has_word_items _ _ _ Hi) in Hin. congruence. }
    destruct (attempt_eq E c acc wd) as (evs1 & Hw1 & Hg1 & Hat).
    unfold bind. rewrite Hat.
    assert (Hnext : length (gets_of (trace wd ++ evs1)) = S (length (gets_of (trace wd)))).
    { rewrite gets_of_app, Hg1, length_app. simpl. lia. }
    destruct (enrichment_ok E (length (gets_of (trace wd))) c) eqn:Hok.
    + match goal with |- context [for_candidates _ _ _ _ (acc ++ [?it]) ?w] =>
        destruct (IH (acc ++ [it]) (ws0 ++ [c]) w)
          as (acc' & ws' & rs & evs & Hrun & Hwr & Hg & Hi' & Hloop) end.
      * apply Forall2_app; [exact Hi|]. repeat constructor. eexists _, _. reflexivity.
      * apply NoDup_app. split; [exact Hn|]. split; [|apply NoDup_singleton].
        intros x Hx Hx'. apply list_elem_of_singleton in Hx'. congruence.
      * intros x Hx. apply elem_of_app in Hx as [Hx|Hx]; [auto|].
        apply list_elem_of_singleton in Hx as ->. apply Hcs, list_elem_of_here.
      * exact Hrest.
      * simpl in Hrun, Hloop. rewrite <- app_assoc in Hrun. rewrite Hnext in Hloop.
        exists acc', ws', (c :: rs), (evs1 ++ evs). split; [exact Hrun|].
        split; [rewrite writes_of_app, Hw1, Hwr; reflexivity|].
        split; [rewrite gets_of_app, Hg1, Hg; reflexivity|].
        split; [exact Hi'|]. apply run_append; auto.
    + match goal with |- context [for_candidates _ _ _ _ acc ?w] =>
        destruct (IH acc ws0 w Hi Hn Hsub Hrest)
          as (acc' & ws' & rs & evs & Hrun & Hwr & Hg & Hi' & Hloop) end.
      simpl in Hrun, Hloop. rewrite <- app_assoc in Hrun. rewrite Hnext in Hloop.
      exists acc', ws', (c :: rs), (evs1 ++ evs). split; [exact Hrun|].
      split; [rewrite writes_of_app, Hw1, Hwr; reflexivity|].
      split; [rewrite gets_of_app, Hg1, Hg; reflexivity|].
      split; [exact Hi'|]. apply run_failure; auto.
Qed.

(** A run of [ensure_words] below the minimum, request by request. *)
Lemma ensure_words_exact_run E min_total w :
  let words := stored_words w in
  let needed := needed_for min_total words in
  (forall l, shuffle E l ≡ₚ l) ->
  Forall (fun item => is_Some (word_key item)) words ->
  Z.of_nat (length words) < min_total ->
  exists rs added ws w3,
    ensure_words E min_total w =
      (Ok tt, match added with
              | [] => w3
              | _ :: _ => saved (words ++ added) (length added) w3
              end) /\
    files w3 = files w /\ faults w3 = faults w /\
    writes_of (trace w3) = writes_of (trace w) /\
    gets_of (trace w3) = gets_of (trace w) ++ (entry_url <$> rs) /\
    Forall2 item_of added ws /\
    loop_run E words (length (gets_of (trace w))) [] (candidates_for E needed) rs ws.
Proof.
  intros words needed Hp Hk Hlt.
  pose proof (needed_for_ge min_total words) as Hneed. fold needed in Hneed.
  destruct (for_candidates_loop_run E needed words (candidates_for E needed)
              Hk ltac:(lia) [] [] (loop_entry w))
    as (added & ws & rs & evs & Hrun & Hwr & Hg & Hi & Hloop).
  { constructor. } { constructor. }
  { intros c Hc. exfalso. eapply not_elem_of_nil, Hc. }
  { intros c. apply candidates_in_pool, Hp. }
  assert (Hn0 : length (gets_of (trace (loop_entry w))) = length (gets_of (trace w))).
  { unfold loop_entry. simpl. rewrite gets_of_app, load_world_gets. simpl.
    rewrite app_nil_r. reflexivity. }
  rewrite Hn0 in Hloop.
  exists rs, added, ws,
    (World (files (loop_entry w)) (faults (loop_entry w)) (trace (loop_entry w) ++ evs)).
  split.
  { rewrite ensure_words_eq. cbv zeta. fold words. fold needed.
    destruct (Z.of_nat (length words) >=? min_total) eqn:Hge;
      [apply geb_true in Hge; lia|].
    rewrite Hrun. destruct added; reflexivity. }
  split; [apply load_world_files|]. split; [apply load_world_faults|].
  split.
  { unfold loop_entry. simpl. rewrite !writes_of_app, Hwr, load_world_writes.
    simpl. rewrite !app_nil_r. reflexivity. }
  split.
  { unfold loop_entry. simpl. rewrite !gets_of_app, Hg, load_world_gets.
    simpl. rewrite app_nil_r. reflexivity. }
  split; assumption.
Qed.

Lemma call_requests_of_run E min_total w rs (added : list json) words' w3 :
  ensure_words E min_total w =
    (Ok tt, match added with
            | [] => w3
            | _ :: _ => saved words' (length added) w3
            end) ->
  gets_of (trace w3) = gets_of (trace w) ++ (entry_url <$> rs) ->
  call_requests E min_total w = entry_url <$> rs.
Proof.
  intros Hrun Hg. unfold call_requests. rewrite Hrun. cbn [snd].
  destruct added; rewrite ?saved_gets, Hg; apply drop_app_length.
Qed.

Lemma entry_url_inj c c' : entry_url c = entry_url c' -> c = c'.
Proof. unfold entry_url. apply String.app_inj. Qed.

Lemma occurrences_elem_of c l : occurrences c l <> 0%nat -> c ∈ l.
Proof.
  intros Hocc. destruct (decide (c ∈ l)) as [Hin|Hout]; [exact Hin|].
  destruct Hocc. apply occurrences_not_in, Hout.
Qed.

(** C3, amended. In a run below the minimum (corpus items all keyed, the
    shuffle a permutation) the requests sent are requests for missing seed
    words only, and a word gets an entry, a complete one, exactly when one
    of its requests succeeds: a failed request adds nothing and the loop
    goes on. A failed word is not given up: it is requested again at its
    later occurrences, so a word none of whose requests succeeds is
    requested [needed // 30 + 2] times in the call, and a word whose
    request succeeds is not requested after that. When the service answers
    each word alike at every attempt, the corpus grows by exactly the
    number of missing seed words whose request succeeds. *)
Theorem failed_candidates_leave_no_entry E min_total w :
  let words := stored_words w in
  let needed := Z.max (min_total - Z.of_nat (length words)) 50 in
  let n0 := length (gets_of (trace w)) in
  (forall l, shuffle E l ≡ₚ l) ->
  Forall (fun item => is_Some (word_key item)) words ->
  Z.of_nat (length words) < min_total ->
  exists rs added ws w',
    ensure_words E min_total w = (Ok tt, w') /\
    call_requests E min_total w = entry_url <$> rs /\
    writes_of (trace w') =
      writes_of (trace w) ++
      match added with
      | [] => []
      | _ :: _ => [(WORDS_FILE, JList (words ++ added))]
      end /\
    (next_outcome w = WriteOk -> stored_words w' = words ++ added) /\
    Forall2 item_of added ws /\ NoDup ws /\
    (forall c, c ∈ rs -> c ∈ SAMPLE_WORDS_POOL /\ has_word words c = false) /\
    (forall c, c ∈ ws <->
       exists i, rs !! i = Some c /\ enrichment_ok E (n0 + i) c = true) /\
    (forall c i j,
       rs !! i = Some c -> enrichment_ok E (n0 + i) c = true ->
       rs !! j = Some c -> (j <= i)%nat) /\
    (forall c, c ∈ SAMPLE_WORDS_POOL -> has_word words c = false -> c ∉ ws ->
       occurrences c rs = Z.to_nat (needed / 30 + 2)) /\
    (steady E ->
     length added =
       length (filter (fun c => negb (has_word words c) && enrichment_ok E 0 c)
                      SAMPLE_WORDS_POOL)).
Proof.
  intros words needed n0 Hp Hk Hlt.
  destruct (ensure_words_exact_run E min_total w Hp Hk Hlt)
    as (rs & added & ws & w3 & Hrun & Hf & Hfl & Hwr & Hg & Hi & Hloop).
  fold words n0 in Hrun, Hloop. change (needed_for min_total words) with needed in Hloop.
  set (cands := candidates_for E needed) in *.
  assert (Hnd : NoDup ws) by (eapply loop_run_NoDup; [exact Hloop | constructor]).
  assert (Hiff : forall c, c ∈ ws <->
            exists i, rs !! i = Some c /\ enrichment_ok E (n0 + i) c = true).
  { intros c. rewrite (loop_run_done_iff _ _ _ _ _ _ _ c Hloop), elem_of_nil. tauto. }
  assert (Hreq : forall c, c ∈ rs -> c ∈ SAMPLE_WORDS_POOL /\ has_word words c = false).
  { intros c Hc. destruct (loop_run_requests _ _ _ _ _ _ _ c Hloop Hc) as (Hin & Hw & _).
    split; [eapply candidates_in_pool; eauto | exact Hw]. }
  assert (Hocc : forall c, c ∈ SAMPLE_WORDS_POOL -> has_word words c = false ->
            c ∉ ws -> occurrences c rs = Z.to_nat (needed / 30 + 2)).
  { intros c Hc Hw Hout.
    rewrite (loop_run_every_occurrence _ _ _ _ _ _ _ c Hloop Hw Hout).
    apply candidates_occurrences; assumption. }
  eexists rs, added, ws, _. split; [exact Hrun|].
  split; [eapply call_requests_of_run; eauto|].
  split.
  { destruct added as [|x l]; [rewrite Hwr, app_nil_r; reflexivity|].
    unfold saved. cbn [trace]. rewrite writes_of_app, save_world_writes, Hwr.
    simpl. rewrite app_nil_r. reflexivity. }
  split.
  { intros Hok. apply stored_words_after_run.
    - apply stored_words_files, Hf.
    - unfold next_outcome in *. rewrite Hfl. exact Hok. }
  split; [exact Hi|]. split; [exact Hnd|]. split; [exact Hreq|].
  split; [exact Hiff|].
  split; [intros c i j; apply (loop_run_success_last _ _ _ _ _ _ _ c i j Hloop)|].
  split; [exact Hocc|].
  intros Hst. rewrite (Forall2_length _ _ _ Hi). apply Permutation_length.
  apply NoDup_Permutation; [exact Hnd | apply NoDup_filter, pool_NoDup |].
  intros c. rewrite list_elem_of_filter. split.
  - intros Hc. apply Hiff in Hc as (i & Hi' & Hs).
    assert (Hin : c ∈ rs) by (apply list_elem_of_lookup; eauto).
    destruct (Hreq c Hin) as [Hpool Hw].
    rewrite (enrichment_ok_steady _ _ _ Hst) in Hs. rewrite Hw, Hs.
    split; [exact I | exact Hpool].
  - intros [HP Hc]. apply andb_prop_elim in HP as [H2 H3].
    apply negb_prop_elim, Is_true_false_1 in H2. apply Is_true_true_1 in H3.
    destruct (decide (c ∈ ws)) as [Hin|Hout]; [exact Hin|]. exfalso.
    pose proof (Hocc c Hc H2 Hout) as Hk'.
    assert (Hin : c ∈ rs).
    { apply occurrences_elem_of. rewrite Hk'.
      assert (0 <= needed / 30) by (apply Z.div_pos; lia). lia. }
    apply list_elem_of_lookup in Hin as [i Hi'].
    apply Hout, Hiff. exists i. split; [exact Hi'|].
    rewrite (enrichment_ok_steady _ _ _ Hst). exact H3.
Qed.

(** Ten seed words missing, two of them failing at every attempt: each of
    the two is requested eight times, and the corpus grows by eight. *)
Lemma failed_candidates_leave_no_entry_witness :
  exists rs added w',
    ensure_words two_fail_env 200 twenty_stored = (Ok tt, w') /\
    call_requests two_fail_env 200 twenty_stored = entry_url <$> rs /\
    occurrences "apple" rs = 8%nat /\
    length added = 8%nat /\
    stored_words w' = stored_words twenty_stored ++ added.
Proof.
  destruct (failed_candidates_leave_no_entry two_fail_env 200 twenty_stored)
    as (rs & added & ws & w' & Hrun & Hreq & _ & Hst & _ & _ & _ & Hiff & _ & Hocc & Hlen).
  - intros l. apply reverse_Permutation.
  - exact twenty_stored_keyed.
  - vm_compute. reflexivity.
  - exists rs, added, w'. split; [exact Hrun|]. split; [exact Hreq|].
    split; [|split; [|apply Hst; reflexivity]].
    + rewrite (Hocc "apple"); [reflexivity | | reflexivity |].
      * vm_compute. apply list_elem_of_here.
      * intros Hin. apply Hiff in Hin as (i & _ & Hok).
        vm_compute in Hok. discriminate Hok.
    + rewrite (Hlen two_fail_env_steady). vm_compute. reflexivity.
Defined.

Lemma occurrences_urls c rs :
  occurrences (entry_url c) (entry_url <$> rs) = occurrences c rs.
Proof.
  induction rs as [|x rs IH]; [reflexivity|].
  rewrite fmap_cons, !occurrences_cons, IH.
  destruct (decide (entry_url x = entry_url c)) as [Heq|Hne];
    destruct (decide (x = c)) as [->|Hne']; try reflexivity.
  - apply entry_url_inj in Heq. congruence.
  - congruence.
Qed.

(** C8. Below the minimum, [ensure_words] runs its loop with the bound
    [needed = max(min_total - len(words), 50)] over the candidates
    [shuffle (SAMPLE_WORDS_POOL * (needed // 30 + 2))], starting from an
    empty batch: what that loop returns is what is saved, once, behind the
    stored corpus, and nothing is saved when it returns nothing. The batch
    has at most [needed] items, each an entry for one of the candidates.
    With the shuffle a permutation, every seed word is among the
    candidates [needed // 30 + 2] times, and that is how often a missing
    word is requested when all its requests fail. *)
Theorem ensure_words_adds_at_most_needed E min_total w :
  let words := stored_words w in
  let needed := Z.max (min_total - Z.of_nat (length words)) 50 in
  let candidates := shuffle E (Py.list_mul SAMPLE_WORDS_POOL (needed / 30 + 2)) in
  Z.of_nat (length words) < min_total ->
  (exists r w3,
     for_candidates E needed words candidates [] (loop_entry w) = (r, w3) /\
     files w3 = files w /\ faults w3 = faults w /\
     writes_of (trace w3) = writes_of (trace w) /\
     match r with
     | Raise e => ensure_words E min_total w = (Raise e, w3)
     | Ok added =>
         ensure_words E min_total w =
           (Ok tt, match added with
                   | [] => w3
                   | _ :: _ => saved (words ++ added) (length added) w3
                   end) /\
         Z.of_nat (length added) <= needed /\
         Forall (fun item => exists c, c ∈ candidates /\ item_of item c) added /\
         writes_of (trace (snd (ensure_words E min_total w))) =
           writes_of (trace w) ++
           match added with
           | [] => []
           | _ :: _ => [(WORDS_FILE, JList (words ++ added))]
           end /\
         (next_outcome w = WriteOk ->
          stored_words (snd (ensure_words E min_total w)) = words ++ added)
     end) /\
  ((forall l, shuffle E l ≡ₚ l) ->
   candidates ≡ₚ Py.list_mul SAMPLE_WORDS_POOL (needed / 30 + 2) /\
   (forall c, c ∈ SAMPLE_WORDS_POOL ->
              occurrences c candidates = Z.to_nat (needed / 30 + 2)) /\
   (Forall (fun item => is_Some (word_key item)) words ->
    forall c, c ∈ SAMPLE_WORDS_POOL -> has_word words c = false ->
              (forall n, enrichment_ok E n c = false) ->
              occurrences (entry_url c) (call_requests E min_total w)
              = Z.to_nat (needed / 30 + 2))).
Proof.
  intros words needed candidates Hlt.
  change needed with (needed_for min_total words) in *.
  change candidates with (candidates_for E (needed_for min_total words)) in *.
  clear candidates. set (cands := candidates_for E (needed_for min_total words)).
  split.
  - destruct (for_candidates_sound E (needed_for min_total words) words cands
                [] (loop_entry w)) as (r & evs & Hrun & Hw & Hpost).
    set (w3 := World (files (loop_entry w)) (faults (loop_entry w))
                     (trace (loop_entry w) ++ evs)) in *.
    assert (Hf : files w3 = files w) by apply load_world_files.
    assert (Hfl : faults w3 = faults w) by apply load_world_faults.
    assert (Hwr : writes_of (trace w3) = writes_of (trace w)).
    { unfold w3, loop_entry. simpl. rewrite !writes_of_app, Hw, load_world_writes.
      simpl. rewrite !app_nil_r. reflexivity. }
    assert (Heq : ensure_words E min_total w =
              match r with
              | Ok [] => (Ok tt, w3)
              | Ok (x :: l) => (Ok tt, saved (words ++ x :: l) (length (x :: l)) w3)
              | Raise e => (Raise e, w3)
              end).
    { rewrite ensure_words_eq. cbv zeta. fold words.
      destruct (Z.of_nat (length words) >=? min_total) eqn:Hge;
        [apply geb_true in Hge; lia|].
      fold cands. rewrite Hrun. reflexivity. }
    exists r, w3. split; [exact Hrun|]. split; [exact Hf|]. split; [exact Hfl|].
    split; [exact Hwr|]. destruct r as [added|e]; [|exact Heq].
    destruct Hpost as (added' & ws & Ha & Hi & Hn & Hc & Hlen).
    simpl in Ha. subst added'.
    split; [rewrite Heq; destruct added; reflexivity|].
    split.
    { pose proof (needed_for_ge min_total words).
      change (Z.of_nat (length (@nil json))) with 0 in Hlen. lia. }
    split.
    { clear -Hi Hc. induction Hi as [|item c added ws Hitem Hi IH]; constructor.
      - exists c. split; [|exact Hitem]. apply (Hc c), list_elem_of_here.
      - apply IH. intros x Hx. apply Hc, list_elem_of_further, Hx. }
    rewrite Heq. destruct added as [|x l]; cbn [snd].
    + rewrite Hwr, app_nil_r. split; [reflexivity|].
      intros _. rewrite app_nil_r. apply stored_words_files, Hf.
    + split.
      * unfold saved. cbn [trace]. rewrite writes_of_app, save_world_writes, Hwr.
        simpl. rewrite app_nil_r. reflexivity.
      * intros Hok. rewrite stored_words_saved.
        unfold next_outcome in *. rewrite Hfl, Hok. reflexivity.
  - intros Hp. split; [apply Hp|].
    split; [intros c Hc; apply candidates_occurrences; assumption|].
    intros Hk c Hc Hmiss Hfail.
    destruct (ensure_words_exact_run E min_total w Hp Hk Hlt)
      as (rs & added & ws & w3 & Hrun & _ & _ & _ & Hg & _ & Hloop).
    rewrite (call_requests_of_run _ _ _ _ _ _ _ Hrun Hg), occurrences_urls.
    rewrite (loop_run_every_occurrence _ _ _ _ _ _ _ c Hloop Hmiss).
    + apply candidates_occurrences; assumption.
    + intros Hin. apply (loop_run_done_iff _ _ _ _ _ _ _ c Hloop) in Hin
        as [Hin|(i & _ & Hok)].
      * eapply not_elem_of_nil, Hin.
      * rewrite Hfail in Hok. discriminate.
Qed.

Lemma ensure_words_adds_at_most_needed_witness :
  Z.of_nat (length (stored_words empty_world)) < 200 /\
  exists added w3,
    for_candidates bare_env 200 []
      (Py.list_mul SAMPLE_WORDS_POOL 8) [] (loop_entry empty_world)
      = (Ok added, w3) /\
    Z.of_nat (length added) <= 200 /\
    stored_words (snd (ensure_words bare_env 200 empty_world)) = added.
Proof.
  split; [reflexivity|].
  destruct (ensure_words_adds_at_most_needed bare_env 200 empty_world)
    as [(r & w3 & Hloop & _ & _ & _ & Hr) _]; [reflexivity|].
  destruct r as [added|e].
  - destruct Hr as (_ & Hlen & _ & _ & Hst).
    exists added, w3. split; [exact Hloop|]. split; [exact Hlen|].
    apply Hst. reflexivity.
  - vm_compute in Hr. discriminate Hr.
Defined.

(** ** The jobs of [main] and the writers of the quota counter *)

Lemma tick_times start t :
  Scheduler.fires start (Scheduler.Repeating 60 10) t = true <->
  exists k, 0 <= k /\ t = 10 + 60 * k.
Proof.
  unfold Scheduler.fires. rewrite andb_true_iff, Z.leb_le, Z.eqb_eq. split.
  - intros [H1 H2]. exists ((t - 10) / 60).
    split; [apply Z.div_pos; lia | Z.div_mod_to_equations; lia].
  - intros (k & Hk & ->). split; [lia|]. Z.div_mod_to_equations. lia.
Qed.

Lemma reset_translations_outcome w :
  exists w',
    Scheduler.reset_translations w = (Ok tt, w') /\
    match next_outcome w with
    | WriteOk =>
        forall u d, Py.dict_lookup u (stored_users w) = Some (JObj d) ->
                    counter_of u w' = Some 0
    | OpenFails _ => files w' = files w
    | DumpFails _ => stored_users w' = []
    end.
Proof.
  unfold Scheduler.reset_translations, bind. rewrite get_users_eq.
  unfold save_users. rewrite save_json_eq. eexists. split; [reflexivity|].
  destruct (next_outcome w) as [|e|e] eqn:Ho.
  - intros u d Hl. unfold counter_of.
    rewrite (SchedulerFacts.stored_users_saved _ _ Ho),
      SchedulerFacts.dict_lookup_map, Hl.
    apply SchedulerFacts.translations_today_zero.
  - unfold save_world. rewrite next_outcome_load, Ho. apply load_world_files.
  - unfold save_world. rewrite next_outcome_load, Ho.
    unfold stored_users, load_value. simpl. rewrite lookup_insert_eq. reflexivity.
Qed.

Lemma users_after_save users' w :
  match next_outcome w with
  | WriteOk =>
      stored_users (save_world USERS_FILE (JObj users') (load_world USERS_FILE w)) = users'
  | OpenFails _ =>
      stored_users (save_world USERS_FILE (JObj users') (load_world USERS_FILE w))
      = stored_users w
  | DumpFails _ =>
      stored_users (save_world USERS_FILE (JObj users') (load_world USERS_FILE w)) = []
  end.
Proof.
  destruct (next_outcome w) as [|e|e] eqn:Ho.
  - apply SchedulerFacts.stored_users_saved, Ho.
  - apply SchedulerFacts.stored_users_files. unfold save_world.
    rewrite next_outcome_load, Ho. apply load_world_files.
  - unfold save_world. rewrite next_outcome_load, Ho.
    unfold stored_users, load_value. simpl. rewrite lookup_insert_eq. reflexivity.
Qed.

(** [ensure_user] keeps every stored profile, unless its dump breaks off
    and leaves the collection unreadable. *)
Lemma ensure_user_keeps_or_breaks user_id username w u p :
  Py.dict_lookup u (stored_users w) = Some p ->
  Py.dict_lookup u (stored_users (snd (ensure_user user_id username w))) = Some p \/
  ((exists e, next_outcome w = DumpFails e) /\
   stored_users (snd (ensure_user user_id username w)) = []).
Proof.
  intros Hl. rewrite ensure_user_eq. cbv zeta.
  destruct (Py.dict_contains (Py.str user_id) (stored_users w)) eqn:Hc; cbn [snd].
  - left. rewrite (SchedulerFacts.stored_users_files w); [exact Hl | apply load_world_files].
  - pose proof (users_after_save
        (Py.dict_set (Py.str user_id) (new_profile username) (stored_users w)) w) as Hs.
    destruct (next_outcome w) as [|e|e].
    + left. rewrite Hs, dict_lookup_set_ne; [exact Hl|].
      intros <-. apply dict_contains_false in Hc. congruence.
    + left. rewrite Hs. exact Hl.
    + right. split; [eauto | exact Hs].
Qed.

Lemma count_translation_outcome user_id w u c :
  counter_of u w = Some c ->
  (exists c', counter_of u (snd (Scheduler.count_translation user_id w)) = Some c' /\
              c <= c' <= c + 1) \/
  ((exists e, next_outcome w = DumpFails e) /\
   stored_users (snd (Scheduler.count_translation user_id w)) = []).
Proof.
  unfold counter_of. intros Hc.
  destruct (Py.dict_lookup u (stored_users w)) as [p|] eqn:Hl; [|discriminate].
  simpl in Hc.
  assert (Hsame : stored_users (load_world USERS_FILE w) = stored_users w)
    by apply SchedulerFacts.stored_users_files, load_world_files.
  assert (Hkeep : Py.dict_lookup u (stored_users (load_world USERS_FILE w)) ≫=
                    Scheduler.translations_today = Some c)
    by (rewrite Hsame, Hl; exact Hc).
  unfold Scheduler.count_translation, bind. rewrite get_users_eq.
  destruct (Py.dict_lookup (Py.str user_id) (stored_users w))
    as [[| | | | | |d]|] eqn:Hd; cbn [snd];
    try (left; exists c; split; [exact Hkeep | lia]).
  destruct (Py.dict_lookup "translations_today" d) as [[| |n| | | |]|] eqn:Hn;
    cbn [snd]; try (left; exists c; split; [exact Hkeep | lia]).
  unfold save_users. rewrite save_json_eq. cbn [snd].
  match goal with |- context [save_world _ (JObj ?us) _] =>
    pose proof (users_after_save us w) as Hs end.
  destruct (next_outcome w) as [|e|e].
  - left. rewrite Hs. destruct (String.eqb_spec (Py.str user_id) u) as [Heq|Hne].
    + subst u. rewrite dict_lookup_set. simpl. rewrite dict_lookup_set.
      rewrite Hl in Hd. injection Hd as ->. simpl in Hc. rewrite Hn in Hc.
      injection Hc as ->. exists (c + 1). split; [reflexivity | lia].
    + rewrite dict_lookup_set_ne by exact Hne. rewrite Hl. simpl.
      exists c. split; [exact Hc | lia].
  - left. rewrite Hs, Hl. exists c. split; [exact Hc | lia].
  - right. split; [eauto | exact Hs].
Qed.

(** C10, as stated, fails on the source: while user 7 has thirty
    translations counted, a call of [ensure_user] for a new user whose
    dump breaks off leaves [users.json] unreadable, and the next call for
    user 7 stores a new profile with the counter at zero. *)
Lemma ensure_user_zeroes_after_broken_dump :
  ~ ensure_user_never_lowers [(8, None); (7, None)] quota_used.
Proof.
  intros H.
  assert (Hle : 30 <= 0) by (apply (H "7"); vm_compute; reflexivity).
  lia.
Qed.

(** C10, amended. In the source file as it stands [main] raises
    [NameError] at its first handler ([cmd_start]) and registers no job;
    in a module that binds the names [main] refers to, it registers the
    delivery tick every 60 seconds from second 10 on and the reset daily at
    00:00:00. Such a tick fires at the seconds 10, 70, 130, ...; such a
    reset fires at one instant of each calendar day, its start. The reset
    sets the counter of every stored user to zero when its write goes
    through (an [open] refused leaves the file as it is, a dump that breaks
    off leaves it unreadable). It is not the only operation to write a
    zero counter: [ensure_user] writes [translations_today = 0] into every
    profile it creates. [ensure_user] leaves each stored profile as it is,
    and the increment after a translation leaves a counter or raises it by
    one, unless the dump breaks off and leaves the collection unreadable. *)
Theorem daily_reset_and_the_other_writers :
  Scheduler.main Scheduler.source_names = Raise NameError /\
  (forall names,
     (forall x, x ∈ Scheduler.main_references -> x ∈ names) ->
     Scheduler.main names
     = Ok [ (Scheduler.check_and_send, Scheduler.Repeating 60 10);
            (Scheduler.reset_translations_job, Scheduler.Daily 0) ]) /\
  (forall start t,
     Scheduler.fires start (Scheduler.Repeating 60 10) t = true <->
     exists k, 0 <= k /\ t = 10 + 60 * k) /\
  (forall start day T,
     start <= T -> 86400 * day <= T < 86400 * (day + 1) ->
     Scheduler.fires start (Scheduler.Daily 0) (T - start) = true <->
     T = 86400 * day) /\
  (forall w, exists w',
     Scheduler.reset_translations w = (Ok tt, w') /\
     match next_outcome w with
     | WriteOk =>
         forall u d, Py.dict_lookup u (stored_users w) = Some (JObj d) ->
                     counter_of u w' = Some 0
     | OpenFails _ => files w' = files w
     | DumpFails _ => stored_users w' = []
     end) /\
  (forall username,
     Scheduler.translations_today (new_profile username) = Some 0) /\
  (forall user_id username w u p,
     Py.dict_lookup u (stored_users w) = Some p ->
     Py.dict_lookup u (stored_users (snd (ensure_user user_id username w))) = Some p \/
     ((exists e, next_outcome w = DumpFails e) /\
      stored_users (snd (ensure_user user_id username w)) = [])) /\
  (forall user_id w u c,
     counter_of u w = Some c ->
     (exists c', counter_of u (snd (Scheduler.count_translation user_id w)) = Some c' /\
                 c <= c' <= c + 1) \/
     ((exists e, next_outcome w = DumpFails e) /\
      stored_users (snd (Scheduler.count_translation user_id w)) = [])).
Proof.
  split; [reflexivity|].
  split.
  { intros names Hall. unfold Scheduler.main, Scheduler.main_steps.
    cbn [Scheduler.run_main].
    rewrite !bool_decide_eq_true_2
      by (apply Hall; unfold Scheduler.main_references;
          repeat first [apply list_elem_of_here | apply list_elem_of_further]).
    reflexivity. }
  split; [exact tick_times|].
  split; [exact SchedulerFacts.reset_once_a_day|].
  split; [exact reset_translations_outcome|].
  split; [intros username; reflexivity|].
  split; [exact ensure_user_keeps_or_breaks | exact count_translation_outcome].
Qed.

(** ** The two collections, further *)

(** X2. Saving one collection leaves the other alone, whatever becomes of
    the write: [save_users] does not change what [words.json] holds, and
    [save_words] does not change what [users.json] holds. *)
Theorem saves_leave_the_other_collection users words w :
  files (snd (save_users users w)) !! WORDS_FILE = files w !! WORDS_FILE /\
  stored_words (snd (save_users users w)) = stored_words w /\
  files (snd (save_words words w)) !! USERS_FILE = files w !! USERS_FILE /\
  stored_users (snd (save_words words w)) = stored_users w.
Proof.
  unfold save_users, save_words. rewrite !save_json_eq. cbn [snd].
  assert (Hw : files (save_world USERS_FILE (JObj users) w) !! WORDS_FILE
               = files w !! WORDS_FILE)
    by (apply save_world_other_file; discriminate).
  assert (Hu : files (save_world WORDS_FILE (JList words) w) !! USERS_FILE
               = files w !! USERS_FILE)
    by (apply save_world_other_file; discriminate).
  unfold stored_words, stored_users, load_value. rewrite Hw, Hu. auto.
Qed.

(** X3. When the dump of a dict or a list breaks off after [open] has
    truncated the file, the save still returns normally, and the next load
    of that path logs the failure and yields the empty default: what the
    file held is gone. *)
Theorem broken_dump_loses_content path data e w :
  is_collection data ->
  next_outcome w = DumpFails e ->
  exists w1 w2,
    save_json path data w = (Ok tt, w1) /\
    load_json path w1 = (Ok (empty_default path), w2) /\
    trace w2 = trace w ++ [FileWrite path data; LogSaveFailed path e;
                           LogLoadFailed path JSONDecodeError].
Proof.
  intros _ Hdump. exists (save_world path data w). eexists.
  split; [apply save_json_eq|]. rewrite load_json_eq.
  unfold load_value, load_world, save_world. rewrite Hdump. simpl.
  rewrite lookup_insert_eq. split; [reflexivity|]. simpl.
  rewrite <- !app_assoc. reflexivity.
Qed.

Lemma broken_dump_loses_content_witness :
  exists w1 w2,
    save_json USERS_FILE (JObj [("7", new_profile None); ("8", new_profile None)])
              dump_breaks = (Ok tt, w1) /\
    load_json USERS_FILE w1 = (Ok (JObj []), w2) /\
    stored_users dump_breaks = [("7", new_profile (Some "ann"))].
Proof.
  destruct (broken_dump_loses_content USERS_FILE
              (JObj [("7", new_profile None); ("8", new_profile None)])
              OSError dump_breaks) as (w1 & w2 & Hs & Hl & _);
    [exact I | reflexivity |].
  exists w1, w2. split; [exact Hs|]. split; [exact Hl | reflexivity].
Defined.

(** X5. Valid JSON of the wrong type in [users.json] is taken for an empty
    collection without any log entry: [get_users] returns [{}] unless the
    file holds an object, although [load_json] returns the value found. *)
Theorem get_users_guards_the_type w v :
  files w !! USERS_FILE = Some (Holds v) -> (forall d, v <> JObj d) ->
  get_users w = (Ok [], w) /\ load_json USERS_FILE w = (Ok v, w).
Proof.
  intros Hu Hnu.
  assert (Hl : load_json USERS_FILE w = (Ok v, w)).
  { rewrite load_json_eq. unfold load_value. rewrite Hu.
    f_equal. eapply load_world_holds, Hu. }
  split; [|exact Hl]. unfold get_users, bind. rewrite Hl.
  destruct v; try reflexivity. destruct (Hnu kvs). reflexivity.
Qed.

Lemma get_users_guards_the_type_witness :
  get_users users_is_list = (Ok [], users_is_list) /\
  load_json USERS_FILE users_is_list = (Ok (JList [JInt 1]), users_is_list).
Proof.
  apply (get_users_guards_the_type users_is_list (JList [JInt 1])).
  - reflexivity.
  - discriminate.
Defined.

(** X21. Valid JSON of the wrong type in [words.json] is taken for an
    empty corpus without any log entry: [get_words] returns [[]] unless
    the file holds a list, although [load_json] returns the value found. *)
Theorem get_words_guards_the_type w v :
  files w !! WORDS_FILE = Some (Holds v) -> (forall l, v <> JList l) ->
  get_words w = (Ok [], w) /\ load_json WORDS_FILE w = (Ok v, w).
Proof.
  intros Hw Hnw.
  assert (Hl : load_json WORDS_FILE w = (Ok v, w)).
  { rewrite load_json_eq. unfold load_value. rewrite Hw.
    f_equal. eapply load_world_holds, Hw. }
  split; [|exact Hl]. unfold get_words, bind. rewrite Hl.
  destruct v; try reflexivity. destruct (Hnw l). reflexivity.
Qed.

Lemma get_words_guards_the_type_witness :
  get_words words_is_object = (Ok [], words_is_object) /\
  load_json WORDS_FILE words_is_object
    = (Ok (JObj [("apple", JInt 1)]), words_is_object).
Proof.
  apply (get_words_guards_the_type words_is_object (JObj [("apple", JInt 1)])).
  - reflexivity.
  - discriminate.
Defined.

(** X8. [ensure_user] leaves the corpus alone: [words.json] holds what it
    held, and no request is sent. *)
Theorem ensure_user_leaves_the_corpus user_id username w :
  files (snd (ensure_user user_id username w)) !! WORDS_FILE
    = files w !! WORDS_FILE /\
  stored_words (snd (ensure_user user_id username w)) = stored_words w /\
  gets_of (trace (snd (ensure_user user_id username w))) = gets_of (trace w).
Proof.
  split; [|split; [apply ensure_user_stored_words|]];
    rewrite ensure_user_eq; cbv zeta;
    destruct (Py.dict_contains _ _); cbn [snd].
  - rewrite load_world_files. reflexivity.
  - rewrite save_world_other_file by discriminate.
    rewrite load_world_files. reflexivity.
  - apply load_world_gets.
  - rewrite save_world_gets. apply load_world_gets.
Qed.

(** X18. [ensure_words] leaves the users alone: [users.json] holds what it
    held, whatever the run does. *)
Theorem ensure_words_leaves_the_users E min_total w :
  files (snd (ensure_words E min_total w)) !! USERS_FILE = files w !! USERS_FILE /\
  stored_users (snd (ensure_words E min_total w)) = stored_users w.
Proof.
  assert (Hf : files (snd (ensure_words E min_total w)) !! USERS_FILE
               = files w !! USERS_FILE).
  { destruct (Z.of_nat (length (stored_words w)) >=? min_total) eqn:Hge.
    - apply geb_true in Hge. rewrite (ensure_words_large_eq _ _ _ Hge).
      cbn [snd]. rewrite load_world_files. reflexivity.
    - apply geb_false in Hge.
      destruct (ensure_words_run E min_total w Hge)
        as (r & added & w3 & w' & Hrun & _ & Hf & _ & _ & Hend).
      rewrite Hrun. cbn [snd]. destruct added as [|x l].
      + subst w'. rewrite Hf. reflexivity.
      + destruct Hend as [_ ->]. unfold saved. cbn [files].
        rewrite save_world_other_file by discriminate. rewrite Hf. reflexivity. }
  split; [exact Hf|]. unfold stored_users, load_value. rewrite Hf. reflexivity.
Qed.

(** X20. When the words file does not hold a JSON list (it is corrupt, or
    holds valid JSON of another type), [ensure_words] takes the corpus for
    empty: its batch has an entry for exactly the words one of whose
    requests in this call succeeded, and when the write goes through that
    batch alone replaces what the file held; with an empty batch the files
    stay as they are. *)
Theorem ensure_words_replaces_unreadable_corpus E min_total w :
  (forall l, files w !! WORDS_FILE <> Some (Holds (JList l))) ->
  0 < min_total ->
  next_outcome w = WriteOk ->
  (forall l, shuffle E l ≡ₚ l) ->
  exists added ws w',
    ensure_words E min_total w = (Ok tt, w') /\
    Forall2 item_of added ws /\ NoDup ws /\
    (forall c, c ∈ ws <->
       exists i, call_requests E min_total w !! i = Some (entry_url c) /\
                 request_ok E (length (gets_of (trace w)) + i) (entry_url c) = true) /\
    match added with
    | [] => files w' = files w
    | _ :: _ => files w' !! WORDS_FILE = Some (Holds (JList added))
    end.
Proof.
  intros Hno Hmin Hok Hp. pose proof (stored_words_unreadable w Hno) as Hnil.
  destruct (ensure_words_exact_run E min_total w Hp)
    as (rs & added & ws & w3 & Hrun & Hf & Hfl & _ & Hg & Hi & Hloop).
  { rewrite Hnil. constructor. }
  { rewrite Hnil. simpl. lia. }
  eexists added, ws, _. split; [exact Hrun|]. split; [exact Hi|].
  split; [eapply loop_run_NoDup; [exact Hloop | constructor]|].
  split.
  - intros c. rewrite (call_requests_of_run _ _ _ _ _ _ _ Hrun Hg).
    rewrite (loop_run_done_iff _ _ _ _ _ _ _ c Hloop), elem_of_nil.
    split.
    + intros [[]|(i & Hi' & Hs)]. exists i.
      rewrite list_lookup_fmap, Hi'. split; [reflexivity | exact Hs].
    + intros (i & Hi' & Hs). right. exists i.
      rewrite list_lookup_fmap in Hi'.
      destruct (rs !! i) as [c'|]; [|discriminate].
      assert (Heq : entry_url c' = entry_url c) by (simpl in Hi'; congruence).
      apply entry_url_inj in Heq. subst c'.
      split; [reflexivity | exact Hs].
  - destruct added as [|x l]; [exact Hf|].
    rewrite Hnil. unfold saved. cbn [files].
    rewrite save_world_ok by (unfold next_outcome in *; rewrite Hfl; exact Hok).
    apply lookup_insert_eq.
Qed.

Lemma ensure_words_replaces_unreadable_corpus_witness :
  files words_is_object !! WORDS_FILE = Some (Holds (JObj [("apple", JInt 1)])) /\
  exists added ws w',
    ensure_words bare_env 200 words_is_object = (Ok tt, w') /\
    Forall2 item_of added ws /\
    match added with
    | [] => files w' = files words_is_object
    | _ :: _ => files w' !! WORDS_FILE = Some (Holds (JList added))
    end.
Proof.
  split; [reflexivity|].
  destruct (ensure_words_replaces_unreadable_corpus bare_env 200 words_is_object)
    as (added & ws & w' & Hrun & Hi & _ & _ & Hend).
  - intros l Hl. vm_compute in Hl. discriminate Hl.
  - reflexivity.
  - reflexivity.
  - intros l. reflexivity.
  - exists added, ws, w'. auto.
Defined.
